(** * Trust Region Policy Optimization: the update step of [sb3_contrib/trpo/trpo.py]

    A shallow embedding of [TRPO.__init__]'s sanity checks, of
    [TRPO._compute_actor_grad], [TRPO.hessian_vector_product] and [TRPO.train],
    and the properties of the specification checked against them.

    Conventions.
    - Python exceptions are values of [exn]; a fallible computation returns
      [result A].
    - Python integers are [Z]; [range(n)] runs [Z.to_nat n] times.
    - Floating-point scalars are an abstract type [R] with the operations of
      the class [Torch], so that the properties hold for torch's binary32 as
      for any other format; [BinaryFloat] instantiates it with IEEE-754
      binary64 to run the train step on concrete inputs, where only signs,
      NaN tests and counts are read off.
    - The policy's parameters are an ordered list of named parameters; a
      reference to a parameter object (as held in [actor_params]) is its
      position in that list.
    - A scalar that carries its computation graph is its value as a function
      of the parameters' values; [th.autograd.grad] is an operation of the
      collaborators.
    - What torch's autograd and optimizer, the policy and the distributions
      of stable_baselines3, the rollout buffer and the conjugate-gradient
      solver do is not in the source file: they are the operations of the
      class [Collaborators]. *)

From Stdlib Require Import ZArith Floats String Bool Lia Sorted.
From stdpp Require Import base option list.

Local Open Scope Z_scope.

(** ** Exceptions and fallible computations *)

(** [DanglingReference] is not an exception of Python: it is what the model
    answers to a position outside the parameter list, which no reference to
    a parameter object can be. *)
Inductive exn : Type :=
| AssertionError
| ZeroDivisionError
| RuntimeError (what : string)
| ValueError
| AttributeError
| NameError
| DanglingReference.

Inductive result (A : Type) : Type :=
| Ok (a : A)
| Raise (e : exn).

Arguments Ok {A} a.
Arguments Raise {A} e.

#[global] Instance result_ret : MRet result := fun _ a => Ok a.
#[global] Instance result_bind : MBind result :=
  fun _ _ f r => match r with Ok a => f a | Raise e => Raise e end.

Definition raises {A} (r : result A) : bool :=
  match r with Ok _ => false | Raise _ => true end.

(** ** Construction: the sanity checks of [__init__] (lines 139-161) *)

Module Init.

Inductive warning : Type :=
| TruncatedMiniBatch (batch_size buffer_size untruncated_batches remainder : Z).

(** The parameters the checks read. [env] is [None] when no environment is
    given, and otherwise holds [env.num_envs]. *)
Record args : Type := {
  env : option Z;
  n_steps : Z;
  batch_size : Z;
  normalize_advantage : bool
}.

(** [assert buffer_size > 1, ...] *)
Definition assert_ (b : bool) : result unit :=
  if b then Ok tt else Raise AssertionError.

(** Python's [//] raises on a zero divisor and floors otherwise, as [Z.div]. *)
Definition floordiv (a b : Z) : result Z :=
  if b =? 0 then Raise ZeroDivisionError else Ok (a / b).

(** Python's [%] raises on a zero divisor; its result has the divisor's
    sign, as [Z.modulo]. *)
Definition pymod (a b : Z) : result Z :=
  if b =? 0 then Raise ZeroDivisionError else Ok (a mod b).

(** Lines 142-161: returns the warnings issued, or the exception raised. *)
Definition sanity_check (a : args) : result (list warning) :=
  match env a with
  | None => Ok []
  | Some num_envs =>
      let buffer_size := num_envs * n_steps a in
      _ ← (if normalize_advantage a then assert_ (buffer_size >? 1) else Ok tt);
      untruncated_batches ← floordiv buffer_size (batch_size a);
      remainder ← pymod buffer_size (batch_size a);
      if remainder >? 0
      then Ok [TruncatedMiniBatch (batch_size a) buffer_size untruncated_batches remainder]
      else Ok []
  end.

End Init.

Local Close Scope Z_scope.

(** ** The numeric interface of torch *)

(** Scalars and the reductions of torch over them. The elementwise
    operations follow IEEE-754 in torch; the order in which a reduction adds
    its terms is torch's own, so reductions are operations of the interface. *)
Class Torch (R : Type) : Type := {
  s_zero : R;                      (* 0.0 *)
  s_one : R;                       (* 1.0 *)
  s_two : R;                       (* 2 *)
  s_eps : R;                       (* 1e-8 *)
  s_add : R -> R -> R;
  s_sub : R -> R -> R;
  s_mul : R -> R -> R;
  s_div : R -> R -> R;
  s_sqrt : R -> R;                 (* th.sqrt *)
  s_exp : R -> R;                  (* th.exp *)
  s_lt : R -> R -> bool;           (* a < b; Python's b > a *)
  t_sum : list R -> R;             (* Tensor.sum() *)
  t_mean : list R -> R;            (* Tensor.mean() *)
  t_std : list R -> R;             (* Tensor.std() *)
  t_dot : list R -> list R -> R    (* th.matmul on two 1-D tensors of one size *)
}.

Section Tensors.
Context {R : Type} {T : Torch R}.

(** A tensor: its shape and its elements in row-major order. *)
Record Tensor : Type := mkTensor { shape : list nat; data : list R }.

(** [Tensor.numel()]: the product of the sizes. *)
Definition numel_of (s : list nat) : nat := foldr Nat.mul 1 s.
Definition numel (t : Tensor) : nat := numel_of (shape t).

(** [a * b], [a - b], ... on two 1-D tensors: a tensor of size one is
    broadcast. *)
Definition zip_broadcast (op : R -> R -> R) (a b : list R) : list R :=
  match a, b with
  | [x], _ => map (op x) b
  | _, [y] => map (fun x => op x y) a
  | _, _ => zip_with op a b
  end.

Definition broadcastable (n m : nat) : bool := (n =? m) || (n =? 1) || (m =? 1).

(** Two sizes that differ, neither of them one, raise. *)
Definition elementwise (op : R -> R -> R) (a b : list R) : result (list R) :=
  if broadcastable (length a) (length b) then Ok (zip_broadcast op a b)
  else Raise (RuntimeError "The size of tensor a must match the size of tensor b").

(** [c * t] for a 0-dim [c]. *)
Definition scale (c : R) (v : list R) : list R := map (s_mul c) v.

(** [th.matmul(a, b)] on 1-D tensors: the dot product; the sizes must agree. *)
Definition matmul (a b : list R) : result R :=
  if length a =? length b then Ok (t_dot a b)
  else Raise (RuntimeError "inconsistent tensor size").

(** [th.cat(ts)] on a list of 1-D tensors; an empty list raises. *)
Definition cat {A} (ts : list (list A)) : result (list A) :=
  match ts with
  | [] => Raise (RuntimeError "torch.cat(): expected a non-empty list of Tensors")
  | _ => Ok (concat ts)
  end.

(** [v[start:stop]] on a 1-D tensor: Python's slice, cut at the end of [v]. *)
Definition slice {A} (v : list A) (start stop : nat) : list A :=
  take (stop - start) (drop start v).

(** [v.view(shape)]: the elements of [v] under a new shape of the same
    number of elements. *)
Definition view (v : list R) (s : list nat) : result Tensor :=
  if length v =? numel_of s then Ok (mkTensor s v)
  else Raise (RuntimeError "shape is invalid for input size").

Definition shape_eqb (s1 s2 : list nat) : bool := bool_decide (s1 = s2).

(** [a + b] on two tensors of one shape. The train step adds a tensor to a
    view under the shape of that tensor's own gradient; other shapes are
    out of this model and reported as an exception. *)
Definition tensor_add (a b : Tensor) : result Tensor :=
  if shape_eqb (shape a) (shape b)
  then Ok (mkTensor (shape a) (zip_with s_add (data a) (data b)))
  else Raise (RuntimeError "shapes differ").

(** [c * t] for a 0-dim [c] and a tensor [t]. *)
Definition tensor_scale (c : R) (t : Tensor) : Tensor :=
  mkTensor (shape t) (scale c (data t)).

(** [l[::k]] along the first dimension, for [k >= 1]: elements 0, k, 2k, ... *)
Fixpoint stride_from {A} (k skip : nat) (l : list A) : list A :=
  match l with
  | [] => []
  | x :: rest =>
      match skip with
      | O => x :: stride_from k (k - 1) rest
      | S skip' => stride_from k skip' rest
      end
  end.
Definition stride {A} (k : nat) (l : list A) : list A := stride_from k 0 l.

(** A parameter object: its [.data] and its [.grad]. *)
Record nn_Parameter : Type := mkParameter { p_data : Tensor; p_grad : option Tensor }.

(** The values of all parameters, in the order of [named_parameters()]. *)
Definition Params : Type := list Tensor.

(** A scalar, or a tensor, that carries its computation graph: its value as
    a function of the parameters' values. *)
Definition DScalar : Type := Params -> R.
Definition DTensor : Type := Params -> Tensor.
Definition DVector : Type := Params -> list R.

End Tensors.

Arguments Tensor R : clear implicits.
Arguments nn_Parameter R : clear implicits.
Arguments Params R : clear implicits.
Arguments DScalar R : clear implicits.
Arguments DTensor R : clear implicits.
Arguments DVector R : clear implicits.

(** ["value" in name] *)
Definition contains (pattern name : string) : bool :=
  match String.index 0 pattern name with Some _ => true | None => false end.

(** ** The collaborators of the train step *)

(** [RolloutBufferSamples]: one batch of the rollout buffer, one entry per
    transition in each field. *)
Record RolloutBufferSamples (O A R : Type) : Type := mkSamples {
  observations : list O;
  actions : list A;
  old_values : option (list R);
  old_log_prob : list R;
  advantages : list R;
  returns : option (list R)
}.

Arguments mkSamples {O A R}.
Arguments observations {O A R}.
Arguments actions {O A R}.
Arguments old_values {O A R}.
Arguments old_log_prob {O A R}.
Arguments advantages {O A R}.
Arguments returns {O A R}.

(** What the train step consumes from the policy network, the distributions
    of stable_baselines3, torch's autograd and optimizer, the rollout buffer
    and the conjugate-gradient solver of [sb3_contrib.common.utils]. *)
Class Collaborators (R : Type) : Type := {
  ObsRow : Type;
  ActRow : Type;
  Dist : Type;                 (* a torch distribution over a batch *)
  OptState : Type;             (* the optimizer's own state *)
  Buffer : Type;
  (* the forward pass of the actor, from parameter values to a distribution *)
  proba_distribution : Params R -> list ObsRow -> Dist;
  (* the check of its arguments the constructor of a torch distribution makes
     ([validate_args], on by default): [ValueError] for an argument that is
     not a real number, as the forward pass gives for parameters with a NaN
     or an infinite value *)
  validate_args : Dist -> result unit;
  (* [policy.predict_values(obs).flatten()] *)
  predict_values : Params R -> list ObsRow -> list R;
  (* [distribution.log_prob(actions)] *)
  log_prob : Dist -> list ActRow -> list R;
  (* [kl_divergence(dist_true, dist_pred)], one entry per row *)
  kl_divergence : Dist -> Dist -> list R;
  (* [actions.long().flatten()] *)
  long_flatten : list ActRow -> list ActRow;
  (* [F.mse_loss] *)
  mse_loss : list R -> list R -> R;
  (* [th.autograd.grad(output, param, allow_unused=True)] for the parameter at
     a position: [None] when the parameter is not in the graph of [output].
     The parameters are taken to require a gradient, as those of the policies
     of stable_baselines3 do: for one with [requires_grad=False] torch raises
     instead, a case outside this model *)
  autograd_grad : DScalar R -> nat -> option (DTensor R);
  (* [conjugate_gradient_solver(matrix_vector_dot_fn, b, max_iter)] *)
  conjugate_gradient_solver :
    (list R -> result (list R)) -> list R -> Z -> result (list R);
  (* the new value the optimizer gives a parameter that has a gradient *)
  optimizer_update : OptState -> nat -> Tensor R -> Tensor R -> Tensor R;
  (* the optimizer's state after a step, given the gradients it saw *)
  optimizer_advance : OptState -> list (option (Tensor R)) -> OptState;
  (* [self._update_learning_rate(optimizer)] *)
  update_learning_rate : OptState -> OptState;
  (* [rollout_buffer.get(batch_size)]: the batches one call yields; the
     number stands for the state of the random permutation *)
  buffer_get : Buffer -> option Z -> nat -> list (RolloutBufferSamples ObsRow ActRow R)
}.

Section Model.
Context {R : Type} {T : Torch R} {W : Collaborators R}.

Definition Samples : Type := RolloutBufferSamples ObsRow ActRow R.

(** *** The policy object *)

(** The policy holds its named parameters, one distribution object whose
    torch distribution every [get_distribution] call overwrites (as
    stable_baselines3's policies do), and its optimizer. *)
Record Policy : Type := mkPolicy {
  named_parameters : list (string * nn_Parameter R);
  action_dist : Dist;
  optimizer : OptState
}.

Definition parameters_data (pol : Policy) : Params R :=
  map (fun np => p_data np.2) (named_parameters pol).

Definition with_parameters (pol : Policy) (nps : list (string * nn_Parameter R)) : Policy :=
  mkPolicy nps (action_dist pol) (optimizer pol).

(** A reference to a distribution object: the policy's own one, or a copy
    made by [copy.copy], which keeps the torch distribution it was made with. *)
Inductive DistRef : Type :=
| PolicyDist
| DistCopy (d : Dist).

Definition deref (pol : Policy) (r : DistRef) : Dist :=
  match r with
  | PolicyDist => action_dist pol
  | DistCopy d => d
  end.

(** [self.policy.get_distribution(obs)]: overwrites the policy's
    distribution object and returns it. The torch distribution it builds
    checks its arguments; the check is [validate_args], made where the
    parameters of the forward pass are new (line 362). *)
Definition get_distribution (pol : Policy) (obs : list ObsRow) : Policy * DistRef :=
  (mkPolicy (named_parameters pol)
            (proba_distribution (parameters_data pol) obs)
            (optimizer pol),
   PolicyDist).

(** [copy.copy(distribution)] *)
Definition copy_copy (pol : Policy) (r : DistRef) : DistRef := DistCopy (deref pol r).

(** A parameter object by reference. *)
Definition param_at (nps : list (string * nn_Parameter R)) (i : nat)
  : result (string * nn_Parameter R) :=
  match nps !! i with
  | Some np => Ok np
  | None => Raise DanglingReference
  end.

(** [param.data = t] *)
Definition set_data (t : Tensor R) (np : string * nn_Parameter R) : string * nn_Parameter R :=
  (np.1, mkParameter t (p_grad np.2)).

(** [param.grad = g] *)
Definition set_grad (g : option (Tensor R)) (np : string * nn_Parameter R)
  : string * nn_Parameter R :=
  (np.1, mkParameter (p_data np.2) g).

(** [self.policy.optimizer.zero_grad()], which sets every [.grad] to [None]
    (torch's default [set_to_none]). *)
Definition zero_grad (pol : Policy) : Policy :=
  with_parameters pol (map (set_grad None) (named_parameters pol)).

(** *** The algorithm object *)

Record TRPO : Type := mkTRPO {
  policy : Policy;
  rollout_buffer : Buffer;
  discrete_action_space : bool;   (* isinstance(self.action_space, spaces.Discrete) *)
  normalize_advantage : bool;
  batch_size : Z;
  cg_max_steps : Z;
  cg_damping : R;
  line_search_shrinking_factor : R;
  line_search_max_iter : Z;
  target_kl : R;
  n_critic_updates : Z;
  sub_sampling_factor : Z;
  n_updates : Z
}.

Definition with_policy (self : TRPO) (pol : Policy) : TRPO :=
  mkTRPO pol (rollout_buffer self) (discrete_action_space self)
         (normalize_advantage self) (batch_size self) (cg_max_steps self)
         (cg_damping self) (line_search_shrinking_factor self)
         (line_search_max_iter self) (target_kl self) (n_critic_updates self)
         (sub_sampling_factor self) (n_updates self).

(** *** [_compute_actor_grad] (lines 176-237) *)

(** The four lists the loop appends to. *)
Record ActorGradLists : Type := mkLists {
  policy_objective_gradients_list : list (list R);
  grad_kl_list : list (DVector R);
  grad_shape_list : list (list nat);
  actor_params_list : list nat
}.

Definition empty_lists : ActorGradLists := mkLists [] [] [] [].

(** The body of the loop, for the parameter at position [i] (lines 204-231).
    The gradient of the divergence is asked for with [allow_unused=True];
    the gradient of the objective (line 225) is not, and torch raises when
    the parameter is not in its graph. Every parameter is taken to require
    a gradient (see [autograd_grad]). *)
Definition actor_grad_body (theta : Params R) (kl_div policy_objective : DScalar R)
    (acc : ActorGradLists) (i : nat) (name : string) : result ActorGradLists :=
  if contains "value" name then Ok acc
  else
    match autograd_grad kl_div i with
    | None => Ok acc
    | Some kl_param_grad =>
        match autograd_grad policy_objective i with
        | None =>
            Raise (RuntimeError "One of the differentiated Tensors appears to not have been used in the graph")
        | Some policy_objective_grad =>
            Ok (mkLists
                  (policy_objective_gradients_list acc ++ [data (policy_objective_grad theta)])
                  (grad_kl_list acc ++ [fun th => data (kl_param_grad th)])
                  (grad_shape_list acc ++ [shape (kl_param_grad theta)])
                  (actor_params_list acc ++ [i]))
        end
    end.

(** [for name, param in self.policy.named_parameters(): ...], from the
    parameter at position [i] on. *)
Fixpoint actor_grad_loop (theta : Params R) (kl_div policy_objective : DScalar R)
    (i : nat) (names : list string) (acc : ActorGradLists) : result ActorGradLists :=
  match names with
  | [] => Ok acc
  | name :: rest =>
      acc' ← actor_grad_body theta kl_div policy_objective acc i name;
      actor_grad_loop theta kl_div policy_objective (S i) rest acc'
  end.

(** [th.cat] of 1-D tensors that carry their graph. *)
Definition cat_graph (gs : list (DVector R)) : result (DVector R) :=
  match gs with
  | [] => Raise (RuntimeError "torch.cat(): expected a non-empty list of Tensors")
  | _ => Ok (fun th => concat (map (fun g => g th) gs))
  end.

(** Returns [(actor_params, policy_objective_gradients, grad_kl, grad_shape)]. *)
Definition _compute_actor_grad (self : TRPO) (kl_div policy_objective : DScalar R)
  : result (list nat * list R * DVector R * list (list nat)) :=
  let theta := parameters_data (policy self) in
  acc ← actor_grad_loop theta kl_div policy_objective 0
          (map fst (named_parameters (policy self))) empty_lists;
  policy_objective_gradients ← cat (policy_objective_gradients_list acc);
  grad_kl ← cat_graph (grad_kl_list acc);
  Ok (actor_params_list acc, policy_objective_gradients, grad_kl, grad_shape_list acc).

(** *** [hessian_vector_product] (lines 430-443) *)

(** Modelled from the spec: [flat_grad] of [sb3_contrib.common.utils] is not
    in the source file. It differentiates the scalar with respect to the
    given parameters, flattens the gradients and concatenates them in the
    order of the parameters. The spec does not say what a parameter
    outside the graph yields; as torch does by default, this model raises. *)
Definition flat_grad (theta : Params R) (output : DScalar R) (parameters : list nat)
    (retain_graph : bool) : result (list R) :=
  grads ← mapM (M := result)
            (fun i => match autograd_grad output i with
                      | Some g => Ok (data (g theta))
                      | None => Raise (RuntimeError "unused parameter")
                      end) parameters;
  cat grads.

Definition hessian_vector_product (self : TRPO) (params : list nat) (grad_kl : DVector R)
    (vector : list R) (retain_graph : bool) : result (list R) :=
  let theta := parameters_data (policy self) in
  if broadcastable (length (grad_kl theta)) (length vector) then
    let jacobian_vector_product : DScalar R :=
      fun th => t_sum (zip_broadcast s_mul (grad_kl th) vector) in
    g ← flat_grad theta jacobian_vector_product params retain_graph;
    elementwise s_add g (scale (cg_damping self) vector)
  else Raise (RuntimeError "The size of tensor a must match the size of tensor b").

(** *** [train]: the batch and the objectives (lines 257-303) *)

(** Lines 260-268: every field is strided alike. *)
Definition sub_sample (self : TRPO) (rollout_data : Samples) : Samples :=
  if (sub_sampling_factor self >? 1)%Z then
    let k := Z.to_nat (sub_sampling_factor self) in
    mkSamples (stride k (observations rollout_data))
              (stride k (actions rollout_data))
              None
              (stride k (old_log_prob rollout_data))
              (stride k (advantages rollout_data))
              None
  else rollout_data.

(** Line 291: [(advantages - advantages.mean()) / (advantages.std() + 1e-8)]. *)
Definition normalize (advantages : list R) : list R :=
  map (fun a => s_div (s_sub a (t_mean advantages)) (s_add (t_std advantages) s_eps))
      advantages.

(** Lines 289-291. *)
Definition batch_advantages (self : TRPO) (rollout_data : Samples) : list R :=
  if normalize_advantage self then normalize (advantages rollout_data)
  else advantages rollout_data.

(** Lines 295-299 and 367-368: [(advantages * exp(log_prob - old_log_prob)).mean()].
    The tensors of one batch have one entry per transition, so that the
    elementwise operations pair the entries of equal position. *)
Definition surrogate (advantages log_prob old_log_prob : list R) : R :=
  let ratio := map s_exp (zip_with s_sub log_prob old_log_prob) in
  t_mean (zip_with s_mul advantages ratio).

(** *** [train]: the step size (lines 325-334) *)

Definition line_search_max_step_size (self : TRPO) (search_direction hvp : list R)
  : result R :=
  let line_search_max_step_size := s_mul s_two (target_kl self) in
  d ← matmul search_direction hvp;
  let line_search_max_step_size := s_div line_search_max_step_size d in
  Ok (s_sqrt line_search_max_step_size).

(** *** [train]: the line search (lines 336-398) *)

(** The local variables of [train] the line search reads. *)
Record SearchLocals : Type := mkLocals {
  rollout_data : Samples;
  batch_actions : list ActRow;
  old_distribution : DistRef;
  the_advantages : list R;
  policy_objective : R;               (* the value of the pre-step objective *)
  actor_params : list nat;
  grad_shape : list (list nat);
  search_direction : list R;
  max_step_size : R
}.

(** Lines 349-358: the scaled step, parameter by parameter. *)
Fixpoint apply_step (nps : list (string * nn_Parameter R)) (aps : list nat)
    (originals : list (Tensor R)) (shapes : list (list nat)) (start_idx : nat)
    (coeff step : R) (direction : list R) : result (list (string * nn_Parameter R)) :=
  match aps, originals, shapes with
  | i :: aps', original_param :: originals', shape :: shapes' =>
      np ← param_at nps i;
      let n_params := numel (p_data np.2) in
      v ← view (slice direction start_idx (start_idx + n_params)) shape;
      new ← tensor_add original_param (tensor_scale (s_mul coeff step) v);
      apply_step (<[i := set_data new np]> nps) aps' originals' shapes'
                 (start_idx + n_params) coeff step direction
  | _, _, _ => Ok nps
  end.

(** What one trial computes (lines 360-372); [kl_arguments] keeps the two
    distributions handed to [kl_divergence]. *)
Record Trial : Type := mkTrial {
  trial_policy : Policy;
  new_policy_objective : R;
  trial_kl_div : R;
  kl_arguments : Dist * Dist
}.

(** Lines 360-372. The forward pass of line 362 runs on the parameters the
    inner loop has just written: it raises when the distribution refuses
    its arguments, and the exception leaves [train], the parameters staying
    as they were written. The actions and the old distribution are those of
    line 285 and line 303, which have returned. *)
Definition evaluate (l : SearchLocals) (pol : Policy) : result Trial :=
  let '(pol', distribution) := get_distribution pol (observations (rollout_data l)) in
  _ ← validate_args (deref pol' distribution);
  let lp := log_prob (deref pol' distribution) (batch_actions l) in
  let new_objective := surrogate (the_advantages l) lp (old_log_prob (rollout_data l)) in
  let kl_div :=
    t_mean (kl_divergence (deref pol' distribution) (deref pol' (old_distribution l))) in
  Ok (mkTrial pol' new_objective kl_div
              (deref pol' distribution, deref pol' (old_distribution l))).

(** Line 378: the constraint criteria. *)
Definition accepted (self : TRPO) (l : SearchLocals) (t : Trial) : bool :=
  s_lt (trial_kl_div t) (target_kl self) && s_lt (policy_objective l) (new_policy_objective t).

(** One pass of the loop body up to the test (lines 346-372). *)
Definition run_trial (l : SearchLocals) (originals : list (Tensor R)) (coeff : R)
    (pol : Policy) : result Trial :=
  nps ← apply_step (named_parameters pol) (actor_params l) originals (grad_shape l) 0
        coeff (max_step_size l) (search_direction l);
  evaluate l (with_parameters pol nps).

(** Lines 345-384, [n] passes left: the trials that failed the test, in
    order, and the trial that passed it, if one did
    ([is_line_search_success]). *)
Fixpoint backtrack (self : TRPO) (l : SearchLocals) (originals : list (Tensor R))
    (n : nat) (coeff : R) (pol : Policy) : result (list Trial * option Trial) :=
  match n with
  | O => Ok ([], None)
  | S n' =>
      t ← run_trial l originals coeff pol;
      if accepted self l t then Ok ([], Some t)
      else
        r ← backtrack self l originals n'
              (s_mul coeff (line_search_shrinking_factor self)) (trial_policy t);
        Ok (t :: r.1, r.2)
  end.

(** Line 339: [[param.detach().clone() for param in actor_params]]. *)
Definition snapshot (nps : list (string * nn_Parameter R)) (aps : list nat)
  : result (list (Tensor R)) :=
  mapM (M := result) (fun i => np ← param_at nps i; Ok (p_data np.2)) aps.

(** Lines 391-392: back to the original parameters. *)
Fixpoint revert (nps : list (string * nn_Parameter R)) (aps : list nat)
    (originals : list (Tensor R)) : result (list (string * nn_Parameter R)) :=
  match aps, originals with
  | i :: aps', original_param :: originals' =>
      np ← param_at nps i;
      revert (<[i := set_data original_param np]> nps) aps' originals'
  | _, _ => Ok nps
  end.

(** What one iteration appends to [policy_objective_values],
    [kl_divergences] and [line_search_results]. *)
Record Report : Type := mkReport {
  reported_objective : R;
  reported_kl : R;
  is_line_search_success : bool
}.

(** The policy a loop without success leaves behind: the last trial's. *)
Definition policy_after (pol : Policy) (trials : list Trial) : Policy :=
  match last trials with
  | Some t => trial_policy t
  | None => pol
  end.

(** The trials of one line search, in order. *)
Definition all_trials (r : list Trial * option Trial) : list Trial :=
  r.1 ++ match r.2 with Some t => [t] | None => [] end.

Definition line_search (self : TRPO) (l : SearchLocals) (pol : Policy)
  : result (Policy * Report * list Trial) :=
  originals ← snapshot (named_parameters pol) (actor_params l);
  r ← backtrack self l originals (Z.to_nat (line_search_max_iter self)) s_one pol;
  match r.2 with
  | None =>
      let pol' := policy_after pol r.1 in
      nps ← revert (named_parameters pol') (actor_params l) originals;
      Ok (with_parameters pol' nps, mkReport (policy_objective l) s_zero false,
          all_trials r)
  | Some t =>
      Ok (trial_policy t, mkReport (new_policy_objective t) (trial_kl_div t) true,
          all_trials r)
  end.

(** *** [train]: one pass of the actor loop (lines 257-398) *)

(** The local variables of [train] when the gradients are taken (lines
    257-306): the policy after [zero_grad], the batch, the two objectives
    with their graph, and the two distributions the divergence compares.
    The two forward passes of lines 281 and 284 run on the observations of
    the rollout with the parameters the rollout was collected with; the
    distributions they build are those the collection built, and their
    arguments are taken as accepted. *)
Record Prepared : Type := mkPrepared {
  pr_policy : Policy;
  pr_rollout_data : Samples;
  pr_actions : list ActRow;
  pr_old_distribution : DistRef;
  pr_advantages : list R;
  pr_policy_objective : DScalar R;
  pr_kl_div : DScalar R;
  pr_first_evaluation : Dist * Dist
}.

Definition prepare (self : TRPO) (full_batch : Samples) : Prepared :=
  let rollout_data := sub_sample self full_batch in
  let obs := observations rollout_data in
  let actions :=
    if discrete_action_space self then long_flatten (actions rollout_data)
    else actions rollout_data in
  (* with th.no_grad(): old_distribution = copy.copy(policy.get_distribution(obs)) *)
  let '(pol1, d0) := get_distribution (policy self) obs in
  let old_distribution := copy_copy pol1 d0 in
  let '(pol2, distribution) := get_distribution pol1 obs in
  let advantages := batch_advantages self rollout_data in
  let policy_objective : DScalar R :=
    fun th => surrogate advantages (log_prob (proba_distribution th obs) actions)
                        (old_log_prob rollout_data) in
  let kl_div : DScalar R :=
    fun th => t_mean (kl_divergence (proba_distribution th obs)
                                    (deref pol2 old_distribution)) in
  mkPrepared (zero_grad pol2) rollout_data actions old_distribution advantages
             policy_objective kl_div
             (deref pol2 distribution, deref pol2 old_distribution).

(** The search direction [x], what it was computed from, and [Hv(x)]
    (lines 309-332). *)
Record Direction : Type := mkDirection {
  dir_actor_params : list nat;
  dir_grad_kl : DVector R;
  dir_grad_shape : list (list nat);
  dir_search_direction : list R;
  dir_hvp : list R
}.

Definition direction (self : TRPO) (p : Prepared) : result Direction :=
  let self := with_policy self (pr_policy p) in
  '(actor_params, policy_objective_gradients, grad_kl, grad_shape) ←
    _compute_actor_grad self (pr_kl_div p) (pr_policy_objective p);
  let hessian_vector_product_fn := hessian_vector_product self actor_params grad_kl in
  search_direction ←
    conjugate_gradient_solver (fun v => hessian_vector_product_fn v true)
                              policy_objective_gradients (cg_max_steps self);
  hvp ← hessian_vector_product_fn search_direction false;
  Ok (mkDirection actor_params grad_kl grad_shape search_direction hvp).

(** Lines 325-334, and the variables the line search starts from. *)
Definition search_locals (self : TRPO) (p : Prepared) (d : Direction)
  : result SearchLocals :=
  step ← line_search_max_step_size self (dir_search_direction d) (dir_hvp d);
  Ok (mkLocals (pr_rollout_data p) (pr_actions p) (pr_old_distribution p)
               (pr_advantages p)
               (pr_policy_objective p (parameters_data (pr_policy p)))
               (dir_actor_params d) (dir_grad_shape d) (dir_search_direction d) step).

(** What the actor loop leaves to the rest of [train]: the algorithm object,
    the line of the report, the variable [actor_params], and the divergence
    evaluations made, each with the two distributions it compared. *)
Record ActorOutcome : Type := mkOutcome {
  out_self : TRPO;
  out_report : Report;
  out_actor_params : list nat;
  out_kl_evaluations : list (Dist * Dist)
}.

Definition train_actor (self : TRPO) (full_batch : Samples) : result ActorOutcome :=
  let p := prepare self full_batch in
  d ← direction self p;
  l ← search_locals self p d;
  '(pol, report, trials) ← line_search self l (pr_policy p);
  Ok (mkOutcome (with_policy self pol) report (actor_params l)
                (pr_first_evaluation p :: map kl_arguments trials)).

(** *** [train]: the critic update (lines 400-414) *)

(** [loss.backward()]: every parameter in the graph of the loss gets its
    gradient added to [.grad]. *)
Definition accumulate (old : option (Tensor R)) (g : Tensor R) : Tensor R :=
  match old with
  | None => g
  | Some o => mkTensor (shape o) (zip_with s_add (data o) (data g))
  end.

Definition backward (pol : Policy) (loss : DScalar R) : Policy :=
  let theta := parameters_data pol in
  with_parameters pol
    (imap (fun i np =>
             match autograd_grad loss i with
             | Some g => set_grad (Some (accumulate (p_grad np.2) (g theta))) np
             | None => np
             end)
          (named_parameters pol)).

(** [optimizer.step()]: torch's optimizers leave a parameter whose [.grad]
    is [None] as it is. *)
Definition optimizer_step (pol : Policy) : Policy :=
  mkPolicy
    (imap (fun i np =>
             match p_grad np.2 with
             | Some g => set_data (optimizer_update (optimizer pol) i (p_data np.2) g) np
             | None => np
             end)
          (named_parameters pol))
    (action_dist pol)
    (optimizer_advance (optimizer pol) (map (fun np => p_grad np.2) (named_parameters pol))).

(** Lines 412-413: [for param in actor_params: param.grad = None]. *)
Definition clear_actor_grads (pol : Policy) (aps : list nat) : Policy :=
  with_parameters pol
    (foldl (fun nps i => alter (set_grad None) i nps) (named_parameters pol) aps).

(** Lines 404-414, for one minibatch: the policy afterwards and
    [value_loss.item()]. *)
Definition critic_step (aps : list nat) (pol : Policy) (minibatch : Samples)
  : result (Policy * R) :=
  match returns minibatch with
  | None => Raise AttributeError
  | Some rets =>
      let value_loss : DScalar R :=
        fun th => mse_loss rets (predict_values th (observations minibatch)) in
      let item := value_loss (parameters_data pol) in
      let pol := zero_grad pol in
      let pol := backward pol value_loss in
      let pol := clear_actor_grads pol aps in
      Ok (optimizer_step pol, item)
  end.

(** Line 403: the minibatches of one pass. *)
Fixpoint critic_pass (aps : list nat) (pol : Policy) (minibatches : list Samples)
  : result (Policy * list R) :=
  match minibatches with
  | [] => Ok (pol, [])
  | minibatch :: rest =>
      r ← critic_step aps pol minibatch;
      r' ← critic_pass aps r.1 rest;
      Ok (r'.1, r.2 :: r'.2)
  end.

(** Line 402: the passes, numbered from [pass] on. *)
Fixpoint critic_update (self : TRPO) (aps : list nat) (pol : Policy)
    (passes pass : nat) : result (Policy * list R) :=
  match passes with
  | O => Ok (pol, [])
  | S passes' =>
      r ← critic_pass aps pol
            (buffer_get (rollout_buffer self) (Some (batch_size self)) pass);
      r' ← critic_update self aps r.1 passes' (S pass);
      Ok (r'.1, r.2 ++ r'.2)
  end.

(** *** [train] (lines 239-428) *)

(** The lists [train] fills and hands to the logger. *)
Record TrainLog : Type := mkLog {
  policy_objective_values : list R;
  kl_divergences : list R;
  line_search_results : list bool;
  value_losses : list R
}.

(** Line 257: the loop over [rollout_buffer.get(batch_size=None)]. The
    variable [actor_params] is the one of the last pass, unbound if there
    was none. *)
Fixpoint actor_loop (self : TRPO) (batches : list Samples) (aps : option (list nat))
  : result (TRPO * list Report * option (list nat) * list (Dist * Dist)) :=
  match batches with
  | [] => Ok (self, [], aps, [])
  | full_batch :: rest =>
      o ← train_actor self full_batch;
      r ← actor_loop (out_self o) rest (Some (out_actor_params o));
      Ok (r.1.1.1, out_report o :: r.1.1.2, r.1.2, out_kl_evaluations o ++ r.2)
  end.

Definition critic_phase (self : TRPO) (aps : option (list nat)) : result (Policy * list R) :=
  let passes := Z.to_nat (n_critic_updates self) in
  match aps with
  | Some aps => critic_update self aps (policy self) passes 1
  | None =>
      (* [actor_params] is read only inside the two loops *)
      if forallb (fun k => match buffer_get (rollout_buffer self) (Some (batch_size self)) (S k)
                           with [] => true | _ => false end) (seq 0 passes)
      then Ok (policy self, [])
      else Raise NameError
  end.

(** Lines 245-248: the learning rate of the optimizer is updated. *)
Definition begin_train (self : TRPO) : TRPO :=
  let pol := policy self in
  with_policy self
    (mkPolicy (named_parameters pol) (action_dist pol)
              (update_learning_rate (optimizer pol))).

Definition train (self : TRPO) : result (TRPO * TrainLog) :=
  let self := begin_train self in
  a ← actor_loop self (buffer_get (rollout_buffer self) None 0) None;
  let '(self, reports, aps, _) := a in
  c ← critic_phase self aps;
  let self := with_policy self c.1 in
  Ok (mkTRPO (policy self) (rollout_buffer self) (discrete_action_space self)
             (normalize_advantage self) (batch_size self) (cg_max_steps self)
             (cg_damping self) (line_search_shrinking_factor self)
             (line_search_max_iter self) (target_kl self) (n_critic_updates self)
             (sub_sampling_factor self) (n_updates self + 1)%Z,
      mkLog (map reported_objective reports) (map reported_kl reports)
            (map is_line_search_success reports) c.2).

End Model.

Arguments ActorGradLists R : clear implicits.
Arguments Report R : clear implicits.
Arguments TrainLog R : clear implicits.
Arguments Direction R : clear implicits.

(** ** The vocabulary of the properties *)

Section Vocabulary.
Context {R : Type} {T : Torch R} {W : Collaborators R}.

Implicit Types (theta : Params R) (kl_div objective : DScalar R).
Implicit Types (acc : ActorGradLists R) (names : list string) (aps : list nat).

(** The segment a parameter contributes to each flattened gradient, and the
    shape recorded for it. *)
Definition kl_segment kl_div (i : nat) : DVector R :=
  fun th => match autograd_grad kl_div i with Some g => data (g th) | None => [] end.

Definition objective_segment theta objective (i : nat) : list R :=
  match autograd_grad objective i with Some g => data (g theta) | None => [] end.

Definition kl_shape theta kl_div (i : nat) : list nat :=
  match autograd_grad kl_div i with Some g => shape (g theta) | None => [] end.

(** A parameter the extractor keeps: not named after the value function,
    and in the graph of both objectives. *)
Definition kept names kl_div objective (i : nat) : Prop :=
  (exists name, names !! i = Some name /\ contains "value" name = false)
  /\ is_Some (autograd_grad kl_div i)
  /\ is_Some (autograd_grad objective i).

(** The four lists describe the same parameters, in the same order, all
    kept, at increasing positions below [bound]. *)
Record aligned theta kl_div objective names (bound : nat) acc : Prop := {
  aligned_objective :
    policy_objective_gradients_list acc
    = map (objective_segment theta objective) (actor_params_list acc);
  aligned_kl : grad_kl_list acc = map (kl_segment kl_div) (actor_params_list acc);
  aligned_shape :
    grad_shape_list acc = map (kl_shape theta kl_div) (actor_params_list acc);
  aligned_kept : Forall (kept names kl_div objective) (actor_params_list acc);
  aligned_bound : Forall (fun i => i < bound) (actor_params_list acc);
  aligned_sorted : StronglySorted lt (actor_params_list acc)
}.

(** Two entries of the parameter list that differ at most in the values of
    [.data]: same name, same [.grad], same shape. *)
Definition similar (np np' : string * nn_Parameter R) : Prop :=
  np.1 = np'.1
  /\ p_grad np.2 = p_grad np'.2
  /\ shape (p_data np.2) = shape (p_data np'.2).

(** The parameters the [zip] of line 349 reaches. *)
Fixpoint written (aps : list nat) (originals : list (Tensor R))
    (shapes : list (list nat)) : list nat :=
  match aps, originals, shapes with
  | i :: aps', _ :: originals', _ :: shapes' => i :: written aps' originals' shapes'
  | _, _, _ => []
  end.

(** Two parameter lists that a step over [ws] cannot tell apart. *)
Definition agree (ws : list nat) (s s' : list (string * nn_Parameter R)) : Prop :=
  Forall2 similar s s' /\ forall j, j ∉ ws -> s !! j = s' !! j.

(** [originals] are the values of the parameters [aps] of [nps]. *)
Definition snapshot_of (nps : list (string * nn_Parameter R)) (aps : list nat)
    (originals : list (Tensor R)) : Prop :=
  Forall2 (fun i o => exists np, nps !! i = Some np /\ o = p_data np.2) aps originals.

(** The backtracking coefficient of trial [i]: [1.0] shrunk [i] times. *)
Definition shrink_power (self : TRPO) (i : nat) : R :=
  Nat.iter i (fun c => s_mul c (line_search_shrinking_factor self)) s_one.

(** Trial [i] of a line search that starts from [pol]. *)
Definition trial_at (self : TRPO) (l : SearchLocals) (originals : list (Tensor R))
    (pol : Policy) (i : nat) : result Trial :=
  run_trial l originals (shrink_power self i) pol.

(** Where the segment of the [k]-th actor parameter starts in a flattened
    vector. *)
Definition segment_start (nps : list (string * nn_Parameter R)) (aps : list nat)
    (k : nat) : nat :=
  sum_list (map (fun i => match nps !! i with
                          | Some np => numel (p_data np.2)
                          | None => 0
                          end) (take k aps)).

(** Two policies a trial of the line search cannot tell apart. *)
Definition same_frame (l : SearchLocals) (originals : list (Tensor R))
    (pol pol' : Policy) : Prop :=
  optimizer pol = optimizer pol'
  /\ agree (written (actor_params l) originals (grad_shape l))
           (named_parameters pol) (named_parameters pol').

(** The coefficient [i] passes after [c]. *)
Definition shrink_from (self : TRPO) (c : R) (i : nat) : R :=
  Nat.iter i (fun c => s_mul c (line_search_shrinking_factor self)) c.




(** The actor parameters [aps] have in [pol'] the name and the values they
    have in [pol]. *)
Definition actor_unchanged (aps : list nat) (pol pol' : Policy) : Prop :=
  forall i, i ∈ aps ->
    forall np, named_parameters pol !! i = Some np ->
      exists np', named_parameters pol' !! i = Some np'
                  /\ np'.1 = np.1 /\ p_data np'.2 = p_data np.2.

(** The line search of one pass of the actor loop, with its local
    variables. *)
Definition search_run (self : TRPO) (full_batch : Samples)
  : result (SearchLocals * (Policy * Report R * list Trial)) :=
  let p := prepare self full_batch in
  d ← direction self p;
  l ← search_locals self p d;
  r ← line_search self l (pr_policy p);
  Ok (l, r).

(** What the line search of one pass starts from: its local variables and
    the snapshot of the actor parameters. *)
Definition search_inputs (self : TRPO) (full_batch : Samples)
  : result (SearchLocals * list (Tensor R)) :=
  let p := prepare self full_batch in
  d ← direction self p;
  l ← search_locals self p d;
  originals ← snapshot (named_parameters (pr_policy p)) (actor_params l);
  Ok (l, originals).

(** The positions [_compute_actor_grad] keeps, from position [i] on: those
    of the parameters whose name has no "value" and that have a gradient of
    the divergence. *)
Fixpoint selected_positions (kl_div : DScalar R) (i : nat) (names : list string)
  : list nat :=
  match names with
  | [] => []
  | name :: rest =>
      if negb (contains "value" name)
         && match autograd_grad kl_div i with Some _ => true | None => false end
      then i :: selected_positions kl_div (S i) rest
      else selected_positions kl_div (S i) rest
  end.

(** The recorded shapes are those of the parameters they stand for. *)
Definition shaped_like (nps : list (string * nn_Parameter R)) (aps : list nat)
    (shapes : list (list nat)) : Prop :=
  Forall2 (fun i shp => exists np, nps !! i = Some np /\ shape (p_data np.2) = shp)
          aps shapes.

(** The hyperparameters and the buffer of the algorithm object. *)
Definition configuration (self : TRPO)
  : Buffer * bool * bool * Z * Z * R * R * Z * R * Z * Z :=
  (rollout_buffer self, discrete_action_space self, normalize_advantage self,
   batch_size self, cg_max_steps self, cg_damping self,
   line_search_shrinking_factor self, line_search_max_iter self, target_kl self,
   n_critic_updates self, sub_sampling_factor self).

End Vocabulary.

(** ** The conjugate-gradient solver *)

Section Solver.
Context {R : Type} {T : Torch R}.

(** Modelled from the spec: [conjugate_gradient_solver] of
    [sb3_contrib.common.utils] is not in the source file. Spec 4.3: start
    from [x = 0], [r = b], [p = r]; at each of up to [max_iter] steps take
    [Hp = Hv(p)], [alpha = (r.r) / (p.Hp)], [x += alpha p],
    [r' = r - alpha Hp]; stop when the norm of [r'] is under the tolerance,
    else [p = r' + (r'.r' / r.r) p]. Returns the last [x]. *)
Fixpoint cg_iterate (Hv : list R -> result (list R)) (tol : R) (n : nat)
    (x r p : list R) : result (list R) :=
  match n with
  | O => Ok x
  | S n' =>
      Hp ← Hv p;
      pHp ← matmul p Hp;
      let rr := t_dot r r in
      let alpha := s_div rr pHp in
      x' ← elementwise s_add x (scale alpha p);
      r' ← elementwise s_sub r (scale alpha Hp);
      let rr' := t_dot r' r' in
      if s_lt (s_sqrt rr') tol then Ok x'
      else
        p' ← elementwise s_add r' (scale (s_div rr' rr) p);
        cg_iterate Hv tol n' x' r' p'
  end.

Definition cg_solve (tol : R) (Hv : list R -> result (list R)) (b : list R)
    (max_iter : Z) : result (list R) :=
  cg_iterate Hv tol (Z.to_nat max_iter) (map (fun _ => s_zero) b) b b.

End Solver.

(** ** IEEE-754 binary64 scalars *)

Module BinaryFloat.

Local Open Scope float_scope.

Definition of_nat (n : nat) : float := PrimFloat.of_uint63 (Uint63.of_Z (Z.of_nat n)).

Definition sum (l : list float) : float := fold_left PrimFloat.add l 0.

Definition mean (l : list float) : float := sum l / of_nat (length l).

(** The unbiased estimate, as [Tensor.std()] by default. *)
Definition std (l : list float) : float :=
  let m := mean l in
  PrimFloat.sqrt (sum (map (fun x => (x - m) * (x - m)) l) / of_nat (length l - 1)).

Definition dot (a b : list float) : float := sum (zip_with PrimFloat.mul a b).

(** A polynomial stand-in for [th.exp]: the Taylor sum of degree 12 at
    [x / 256], squared eight times. *)
Definition exp (x : float) : float :=
  let y := x / 256 in
  let term k acc := 1 + acc * y / of_nat k in
  let e := fold_right term 1 (seq 1 12) in
  Nat.iter 8 (fun v => v * v) e.

#[global] Instance torch : Torch float := {|
  s_zero := 0;
  s_one := 1;
  s_two := 2;
  s_eps := 0x1.5798ee2308c3ap-27;   (* 1e-8 *)
  s_add := PrimFloat.add;
  s_sub := PrimFloat.sub;
  s_mul := PrimFloat.mul;
  s_div := PrimFloat.div;
  s_sqrt := PrimFloat.sqrt;
  s_exp := exp;
  s_lt := PrimFloat.ltb;
  t_sum := sum;
  t_mean := mean;
  t_std := std;
  t_dot := dot
|}.

End BinaryFloat.

(** ** A small policy to run the train step on

    A Gaussian policy of unit variance over scalar observations, with mean
    [s * (w0 * o + w1)], and the value function [s * v * o]: the parameter
    [s] is shared by the actor and the critic. Gradients are taken by
    central differences; a parameter is in the graph of a scalar when one
    of three moves of it moves the scalar at the probe point. The
    distribution refuses a mean that is NaN or infinite, as torch's
    [Normal] does. *)

Module Toy.

Import BinaryFloat.
Local Open Scope float_scope.
#[local] Set Warnings "-inexact-float".

Definition entry (theta : Params float) (i j : nat) : float :=
  match theta !! i with
  | Some t => match data t !! j with Some x => x | None => 0 end
  | None => 0
  end.

Definition mean_action (theta : Params float) (o : float) : float :=
  entry theta 0 0 * (entry theta 1 0 * o + entry theta 1 1).

Definition value (theta : Params float) (o : float) : float :=
  entry theta 0 0 * entry theta 2 0 * o.

Definition half_square (x y : float) : float := 0.5 * ((x - y) * (x - y)).

(** [theta] with [h] added to element [j] of parameter [i]. *)
Definition bump (theta : Params float) (i j : nat) (h : float) : Params float :=
  alter (fun t => mkTensor (shape t) (alter (fun x => x + h) j (data t))) i theta.

Definition bump_all (theta : Params float) (i : nat) (h : float) : Params float :=
  alter (fun t => mkTensor (shape t) (map (fun x => x + h) (data t))) i theta.

Definition probe : Params float :=
  [ mkTensor [1%nat] [0.5]; mkTensor [2%nat] [0.25; -0.75];
    mkTensor [1%nat] [1.5]; mkTensor [1%nat] [2] ].

Definition step_h : float := 0x1p-10.

Definition numeric_grad (f : DScalar float) (i : nat) : option (DTensor float) :=
  if PrimFloat.eqb (f probe) (f (bump_all probe i 1))
     && PrimFloat.eqb (f probe) (f (bump_all probe i 0.375))
     && PrimFloat.eqb (f probe) (f (bump_all probe i (-0.625)))
  then None
  else
    Some (fun theta =>
            match theta !! i with
            | Some t =>
                mkTensor (shape t)
                  (map (fun j => (f (bump theta i j step_h) - f (bump theta i j (- step_h)))
                                 / (2 * step_h))
                       (seq 0 (length (data t))))
            | None => mkTensor [] []
            end).

(** The minibatches of a batch: consecutive rows, [n] at a time. *)
Fixpoint chunks {A} (fuel n : nat) (l : list A) : list (list A) :=
  match fuel, l with
  | S fuel', _ :: _ => take n l :: chunks fuel' n (drop n l)
  | _, _ => []
  end.

Definition minibatches (b : RolloutBufferSamples float float float) (n : nat)
  : list (RolloutBufferSamples float float float) :=
  let rows := length (observations b) in
  let opt (o : option (list float)) := default [] o in
  let cut {A} (l : list A) := chunks rows (Nat.max n 1) l in
  (fun '(o, a, (v, lp), (adv, r)) => mkSamples o a (Some v) lp adv (Some r))
    <$> zip (zip (zip (cut (observations b)) (cut (actions b)))
                 (zip (cut (opt (old_values b))) (cut (old_log_prob b))))
            (zip (cut (advantages b)) (cut (opt (returns b)))).

#[global] Instance collaborators : Collaborators float := {|
  ObsRow := float;
  ActRow := float;
  Dist := list float;
  OptState := nat;
  Buffer := RolloutBufferSamples float float float;
  proba_distribution theta obs := map (mean_action theta) obs;
  validate_args d :=
    if forallb (fun m => negb (PrimFloat.is_nan m || PrimFloat.is_infinity m)) d
    then Ok tt else Raise ValueError;
  predict_values theta obs := map (value theta) obs;
  log_prob d a := zip_with (fun m x => - half_square x m) d a;
  kl_divergence p q := zip_with half_square p q;
  long_flatten a := a;
  mse_loss input target := mean (zip_with (fun x y => (x - y) * (x - y)) input target);
  autograd_grad := numeric_grad;
  conjugate_gradient_solver := cg_solve 0x1.b7cdfd9d7bdbbp-34;
  optimizer_update st i d g :=
    mkTensor (shape d) (zip_with (fun x y => x - 0.125 * y) (data d) (data g));
  optimizer_advance st grads := S st;
  update_learning_rate st := st;
  buffer_get b size pass :=
    match size with
    | None => [b]
    | Some n => minibatches b (Z.to_nat n)
    end
|}.

Definition parameters : list (string * nn_Parameter float) :=
  [ ("mlp_extractor.shared.weight"%string, mkParameter (mkTensor [1%nat] [1]) None);
    ("action_net.weight"%string, mkParameter (mkTensor [2%nat] [0.5; 0.25]) None);
    ("value_net.weight"%string, mkParameter (mkTensor [1%nat] [0.75]) None);
    ("features_extractor.idle"%string, mkParameter (mkTensor [1%nat] [3]) None) ].

Definition batch : RolloutBufferSamples float float float :=
  mkSamples [1; 2; -1; 0.5] [1; 0.5; -1.5; 1]
            (Some [0.5; 1; -0.5; 0.25])
            [-0.03125; -0.125; -0.28125; -0.125]
            [1; -0.5; 2; 0.25]
            (Some [1; 1.5; -1; 0.5]).

Definition the_policy : Policy := mkPolicy parameters [] 0%nat.

(** [TRPO(..., target_kl, line_search_max_iter, cg_damping)], the other
    arguments fixed. *)
Definition make (target_kl : float) (line_search_max_iter : Z) (cg_damping : float)
  : TRPO :=
  mkTRPO the_policy batch false true 2 15 cg_damping 0.8 line_search_max_iter
         target_kl 2 1 0.

Definition self : TRPO := make 0.01 10 0.1.

(** A wide trust region: the first two trials fail the test. *)
Definition self_wide : TRPO := make 5 10 0.1.

(** A trust region the line search cannot meet in three trials. *)
Definition self_exhausted : TRPO := make 50 3 0.1.


(** No iteration of the line search. *)
Definition self_no_search : TRPO := make 0.01 0 0.1.

(** Every second transition of the batch. *)
Definition self_strided : TRPO :=
  mkTRPO the_policy batch false true 2 15 0.1 0.8 10 0.01 2 2 0.

(** The parameter no objective depends on. *)
Definition idle_parameter : string * nn_Parameter float :=
  ("features_extractor.idle"%string, mkParameter (mkTensor [1%nat] [3]) None).

(** [TRPO(env, n_steps=2048, batch_size=0, normalize_advantage=False)] on
    one environment. *)
Definition zero_batch_size : Init.args := Init.Build_args (Some 1%Z) 2048%Z 0%Z false.

(** [TRPO(env, n_steps=2048, batch_size=100)] on one environment. *)
Definition truncated_batches : Init.args := Init.Build_args (Some 1%Z) 2048%Z 100%Z true.

End Toy.

(** * Properties *)

(** ** Fallible computations *)

Lemma bind_Ok {A B} (r : result A) (f : A -> result B) (b : B) :
  r ≫= f = Ok b <-> exists a, r = Ok a /\ f a = Ok b.
Proof.
  destruct r as [a|e]; simpl; split.
  - intros Hf. exists a. auto.
  - intros (a' & Ha & Hf). congruence.
  - discriminate.
  - intros (a' & Ha & _). discriminate.
Qed.


Lemma bind_ret {A B} (a : A) (f : A -> result B) : Ok a ≫= f = f a.
Proof. reflexivity. Qed.

Lemma raises_false {A} (r : result A) : raises r = false <-> exists a, r = Ok a.
Proof.
  destruct r as [a|e]; simpl; split; eauto; try discriminate.
  intros [a Ha]. discriminate.
Qed.

(** Invert a successful computation: split its binds, name the
    intermediate results. *)
Ltac invert_ok H :=
  repeat match type of H with
         | _ ≫= _ = Ok _ =>
             let x := fresh "x" in
             let Hx := fresh "Hx" in
             apply bind_Ok in H; destruct H as (x & Hx & H)
         | mret _ = Ok _ => unfold mret, result_ret in H
         | Ok _ = Ok _ => injection H as H
         | Raise _ = Ok _ => discriminate H
         end.

(** ** Construction *)

Section Construction.

Import Init.
Local Open Scope Z_scope.

Lemma sanity_check_Some (a : args) (num_envs : Z) :
  env a = Some num_envs ->
  batch_size a <> 0 ->
  sanity_check a =
    if normalize_advantage a && negb (num_envs * n_steps a >? 1)
    then Raise AssertionError
    else if (num_envs * n_steps a) mod batch_size a >? 0
         then Ok [TruncatedMiniBatch (batch_size a) (num_envs * n_steps a)
                    ((num_envs * n_steps a) / batch_size a)
                    ((num_envs * n_steps a) mod batch_size a)]
         else Ok [].
Proof.
  intros Henv Hb. unfold sanity_check. rewrite Henv.
  unfold floordiv, pymod, assert_.
  apply Z.eqb_neq in Hb. rewrite Hb.
  destruct (normalize_advantage a); simpl;
    destruct (num_envs * n_steps a >? 1); simpl; reflexivity.
Qed.

(** C10, as the code has it. Given an environment and a batch size other
    than zero, the checks of [__init__] raise exactly when the advantage is
    normalized and [n_steps * n_envs] is not greater than 1; when they do
    not raise they issue at most one warning, and for a positive batch size
    none exactly when the batch size divides the buffer size. *)
Theorem init_fails_only_on_small_buffer (a : args) (num_envs : Z) :
  env a = Some num_envs ->
  batch_size a <> 0 ->
  (raises (sanity_check a) = true <->
     normalize_advantage a = true /\ num_envs * n_steps a <= 1)
  /\ (forall ws, sanity_check a = Ok ws ->
        (length ws <= 1)%nat /\
        (0 < batch_size a -> (ws = [] <-> (batch_size a | num_envs * n_steps a)))).
Proof.
  intros Henv Hb. rewrite (sanity_check_Some a num_envs Henv Hb).
  split.
  - destruct (normalize_advantage a); simpl.
    + destruct (Z.gtb_spec (num_envs * n_steps a) 1); simpl.
      * split; [|lia].
        destruct (_ mod _ >? 0); simpl; discriminate.
      * split; [intros _; split; [reflexivity|lia]|reflexivity].
    + split; [|intros [? _]; discriminate].
      destruct (_ mod _ >? 0); simpl; discriminate.
  - intros ws Hws.
    destruct (normalize_advantage a && negb (num_envs * n_steps a >? 1));
      [discriminate|].
    destruct (Z.gtb_spec ((num_envs * n_steps a) mod batch_size a) 0) as [Hm|Hm];
      injection Hws as <-; simpl; (split; [lia|]); intros Hpos.
    + split; [discriminate|].
      intros Hd. apply Z.mod_divide in Hd; lia.
    + split; [|reflexivity]. intros _.
      apply Z.mod_divide; [lia|].
      pose proof (Z.mod_pos_bound (num_envs * n_steps a) (batch_size a) Hpos). lia.
Qed.

End Construction.

(** ** The gradient extractor *)

Section ActorGradient.
Context {R : Type} {T : Torch R} {W : Collaborators R}.

Implicit Types (theta : Params R) (kl_div objective : DScalar R).
Implicit Types (acc : ActorGradLists R) (names : list string) (aps : list nat).

Lemma aligned_empty theta kl_div objective names :
  aligned theta kl_div objective names 0 empty_lists.
Proof. split; simpl; auto; constructor. Qed.

Lemma StronglySorted_snoc (l : list nat) (i : nat) :
  StronglySorted lt l -> Forall (fun j => j < i) l -> StronglySorted lt (l ++ [i]).
Proof.
  induction l as [|x l IH]; simpl; intros Hs Hb.
  - repeat constructor.
  - apply StronglySorted_inv in Hs as [Hs Hx].
    apply Forall_cons in Hb as [Hxi Hb].
    constructor; [auto|].
    apply Forall_app; split; [exact Hx|]. repeat constructor. exact Hxi.
Qed.

Lemma actor_grad_body_aligned theta kl_div objective names acc acc' i name :
  names !! i = Some name ->
  aligned theta kl_div objective names i acc ->
  actor_grad_body theta kl_div objective acc i name = Ok acc' ->
  aligned theta kl_div objective names (S i) acc'.
Proof.
  intros Hname [Ho Hk Hs Hkept Hb Hsort] Hbody.
  assert (Hweak : Forall (fun j => j < S i) (actor_params_list acc)).
  { eapply Forall_impl; [exact Hb|]. simpl. lia. }
  unfold actor_grad_body in Hbody.
  destruct (contains "value" name) eqn:Hvalue.
  { injection Hbody as <-. split; auto. }
  destruct (autograd_grad kl_div i) as [g|] eqn:Hg.
  2:{ injection Hbody as <-. split; auto. }
  destruct (autograd_grad objective i) as [go|] eqn:Hgo; [|discriminate].
  injection Hbody as <-. split; simpl.
  - rewrite map_app, Ho. simpl. unfold objective_segment at 3. rewrite Hgo. reflexivity.
  - rewrite map_app, Hk. simpl. unfold kl_segment at 3. rewrite Hg. reflexivity.
  - rewrite map_app, Hs. simpl. unfold kl_shape at 3. rewrite Hg. reflexivity.
  - apply Forall_app; split; [exact Hkept|].
    repeat constructor; eauto.
  - apply Forall_app; split; [exact Hweak|]. repeat constructor.
  - apply StronglySorted_snoc; assumption.
Qed.

Lemma actor_grad_loop_aligned theta kl_div objective all_names names :
  forall i acc acc',
    (forall k name, names !! k = Some name -> all_names !! (i + k) = Some name) ->
    aligned theta kl_div objective all_names i acc ->
    actor_grad_loop theta kl_div objective i names acc = Ok acc' ->
    aligned theta kl_div objective all_names (i + length names) acc'.
Proof.
  induction names as [|name rest IH]; simpl; intros i acc acc' Hnames Hal Hloop.
  - injection Hloop as <-. rewrite Nat.add_0_r. exact Hal.
  - invert_ok Hloop.
    replace (i + S (length rest)) with (S i + length rest) by lia.
    eapply IH; [| |exact Hloop].
    + intros k nm Hk. replace (S i + k) with (i + S k) by lia.
      apply Hnames. exact Hk.
    + eapply actor_grad_body_aligned; [|exact Hal|exact Hx].
      specialize (Hnames 0 name eq_refl). rewrite Nat.add_0_r in Hnames. exact Hnames.
Qed.

(** What a successful call of [_compute_actor_grad] returns. *)
Lemma compute_actor_grad_aligned (self : TRPO) kl_div objective aps pog gkl shapes :
  _compute_actor_grad self kl_div objective = Ok (aps, pog, gkl, shapes) ->
  let theta := parameters_data (policy self) in
  let names := map fst (named_parameters (policy self)) in
  Forall (kept names kl_div objective) aps
  /\ StronglySorted lt aps
  /\ Forall (fun i => i < length names) aps
  /\ pog = concat (map (objective_segment theta objective) aps)
  /\ (forall th, gkl th = concat (map (fun i => kl_segment kl_div i th) aps))
  /\ shapes = map (kl_shape theta kl_div) aps.
Proof.
  intros Hc theta names. unfold _compute_actor_grad in Hc.
  apply bind_Ok in Hc as (x & Hx & Hc).
  apply bind_Ok in Hc as (pog' & Hpog & Hc).
  apply bind_Ok in Hc as (gkl' & Hgkl & Hc).
  injection Hc as <- <- <- <-.
  fold theta names in Hx.
  pose proof (actor_grad_loop_aligned theta kl_div objective names names 0
                empty_lists x (fun k nm H => H) (aligned_empty _ _ _ _) Hx)
    as [Ho Hk Hs Hkept Hb Hsort].
  assert (Hpog' : pog' = concat (policy_objective_gradients_list x)).
  { unfold cat in Hpog. destruct (policy_objective_gradients_list x);
      [discriminate|]. injection Hpog as <-. reflexivity. }
  assert (Hgkl' : forall th, gkl' th = concat (map (fun g => g th) (grad_kl_list x))).
  { unfold cat_graph in Hgkl. destruct (grad_kl_list x);
      [discriminate|]. injection Hgkl as <-. reflexivity. }
  repeat split; auto.
  - rewrite Hpog', Ho. reflexivity.
  - intros th. rewrite Hgkl', Hk, map_map. reflexivity.
Qed.

(** ["value" in name] holds exactly when the five characters occur somewhere
    in the name. *)
Lemma contains_value (name : string) :
  contains "value" name = true
  <-> exists m, String.substring m 5 name = "value"%string.
Proof.
  unfold contains. destruct (String.index 0 "value" name) as [m|] eqn:Hindex.
  - split; [intros _|reflexivity]. exists m.
    exact (String.index_correct1 _ _ _ _ Hindex).
  - split; [discriminate|]. intros [m Hm]. exfalso.
    apply (String.index_correct3 0 m _ _ Hindex); [discriminate|lia|exact Hm].
Qed.

Lemma kept_named (self : TRPO) kl_div objective (i : nat) :
  kept (map fst (named_parameters (policy self))) kl_div objective i ->
  exists np, named_parameters (policy self) !! i = Some np
             /\ contains "value" np.1 = false.
Proof.
  intros [(name & Hname & Hvalue) _].
  rewrite list_lookup_fmap in Hname.
  destruct (named_parameters (policy self) !! i) as [np|]; [|discriminate].
  injection Hname as <-. eauto.
Qed.

(** C6. Whatever the parameter set, when [_compute_actor_grad] returns: no
    parameter of the actor list is named after the value function; the
    shape list is as long as the actor list; each flattened gradient is the
    concatenation of as many segments, the k-th being the gradient of the
    k-th actor parameter, whose shape is the k-th shape; and the actor list
    follows the order of [named_parameters()]. *)
Theorem actor_gradients_partitioned_and_aligned
    (self : TRPO) kl_div objective aps pog gkl shapes :
  _compute_actor_grad self kl_div objective = Ok (aps, pog, gkl, shapes) ->
  let theta := parameters_data (policy self) in
  (forall i, i ∈ aps ->
     exists np, named_parameters (policy self) !! i = Some np
                /\ contains "value" np.1 = false)
  /\ length shapes = length aps
  /\ (exists segments : list (list R),
        length segments = length aps
        /\ pog = concat segments
        /\ forall k i, aps !! k = Some i ->
             exists g, autograd_grad objective i = Some g
                       /\ segments !! k = Some (data (g theta)))
  /\ (exists segments : list (DVector R),
        length segments = length aps
        /\ (forall th, gkl th = concat (map (fun s => s th) segments))
        /\ forall k i, aps !! k = Some i ->
             exists g s, autograd_grad kl_div i = Some g
                         /\ segments !! k = Some s
                         /\ (forall th, s th = data (g th))
                         /\ shapes !! k = Some (shape (g theta)))
  /\ StronglySorted lt aps.
Proof.
  intros Hc theta.
  destruct (compute_actor_grad_aligned _ _ _ _ _ _ _ Hc)
    as (Hkept & Hsort & _ & Hpog & Hgkl & Hshapes).
  fold theta in Hpog, Hshapes.
  rewrite Forall_forall in Hkept.
  split; [|split; [|split; [|split]]].
  - intros i Hi. eapply kept_named, Hkept, Hi.
  - rewrite Hshapes. apply length_map.
  - exists (map (objective_segment theta objective) aps).
    split; [apply length_map|]. split; [exact Hpog|].
    intros k i Hk.
    destruct (Hkept i) as (_ & _ & [g Hg]); [eapply list_elem_of_lookup_2, Hk|].
    exists g. split; [exact Hg|].
    rewrite list_lookup_fmap, Hk. simpl. unfold objective_segment. rewrite Hg.
    reflexivity.
  - exists (map (kl_segment kl_div) aps).
    split; [apply length_map|]. split.
    { intros th. rewrite Hgkl, map_map. reflexivity. }
    intros k i Hk.
    destruct (Hkept i) as (_ & [g Hg] & _); [eapply list_elem_of_lookup_2, Hk|].
    exists g, (kl_segment kl_div i). split; [exact Hg|].
    split; [rewrite list_lookup_fmap, Hk; reflexivity|].
    split.
    + intros th. unfold kl_segment. rewrite Hg. reflexivity.
    + rewrite Hshapes, list_lookup_fmap, Hk. simpl. unfold kl_shape. rewrite Hg.
      reflexivity.
  - exact Hsort.
Qed.

Lemma actor_grad_loop_ext theta kl_div objective objective' names :
  forall i acc,
    (forall k name acc', names !! k = Some name ->
       actor_grad_body theta kl_div objective' acc' (i + k) name
       = actor_grad_body theta kl_div objective acc' (i + k) name) ->
    actor_grad_loop theta kl_div objective' i names acc
    = actor_grad_loop theta kl_div objective i names acc.
Proof.
  induction names as [|name rest IH]; intros i acc Hbody; simpl; [reflexivity|].
  pose proof (Hbody 0 name acc eq_refl) as H0. rewrite Nat.add_0_r in H0.
  rewrite H0. destruct (actor_grad_body theta kl_div objective acc i name) as [acc'|e];
    simpl; [|reflexivity].
  apply IH. intros k nm acc'' Hk.
  replace (S i + k) with (i + S k) by lia. apply Hbody. exact Hk.
Qed.

(** The actor list has no parameter twice. *)
Lemma compute_actor_grad_NoDup (self : TRPO) kl_div objective aps pog gkl shapes :
  _compute_actor_grad self kl_div objective = Ok (aps, pog, gkl, shapes) -> NoDup aps.
Proof.
  intros Hc.
  destruct (compute_actor_grad_aligned _ _ _ _ _ _ _ Hc) as (_ & Hsort & _).
  clear Hc. induction Hsort as [|i aps Hsort IH Hlt]; constructor; [|exact IH].
  intros Hi. rewrite Forall_forall in Hlt. specialize (Hlt i Hi). lia.
Qed.

(** C7. A parameter that is not named after the value function and has no
    gradient of the divergence costs the loop nothing: its pass raises no
    exception and leaves the four lists as they are, whatever the objective;
    the gradient of the objective with respect to it is not asked for, so
    that the extractor does the same for any objective that differs in that
    gradient only; and when the extractor returns, the parameter is not in
    the actor list, and the shape list and the two flattened gradients hold
    the segments of the actor list only. *)
Theorem absent_kl_gradient_is_skipped
    (self : TRPO) kl_div objective (i : nat) (np : string * nn_Parameter R) :
  named_parameters (policy self) !! i = Some np ->
  contains "value" np.1 = false ->
  autograd_grad kl_div i = None ->
  (forall theta objective' acc,
     actor_grad_body theta kl_div objective' acc i np.1 = Ok acc)
  /\ (forall objective',
        (forall j, j <> i -> autograd_grad objective' j = autograd_grad objective j) ->
        _compute_actor_grad self kl_div objective'
        = _compute_actor_grad self kl_div objective)
  /\ (forall aps pog gkl shapes,
        _compute_actor_grad self kl_div objective = Ok (aps, pog, gkl, shapes) ->
        let theta := parameters_data (policy self) in
        (i ∉ aps)
        /\ shapes = map (kl_shape theta kl_div) aps
        /\ pog = concat (map (objective_segment theta objective) aps)
        /\ (forall th, gkl th = concat (map (fun j => kl_segment kl_div j th) aps))).
Proof.
  intros Hnp Hvalue Hnone.
  assert (Hbody : forall theta objective' acc,
            actor_grad_body theta kl_div objective' acc i np.1 = Ok acc).
  { intros theta objective' acc. unfold actor_grad_body.
    rewrite Hvalue, Hnone. reflexivity. }
  split; [exact Hbody|]. split.
  - intros objective' Hsame. unfold _compute_actor_grad.
    rewrite (actor_grad_loop_ext _ _ objective objective'); [reflexivity|].
    intros k name acc' Hk. simpl. destruct (decide (k = i)) as [->|Hne].
    + rewrite list_lookup_fmap, Hnp in Hk. injection Hk as <-.
      rewrite !Hbody. reflexivity.
    + unfold actor_grad_body. rewrite (Hsame k Hne).
      destruct (contains "value" name); [reflexivity|].
      destruct (autograd_grad kl_div k); [|reflexivity].
      destruct (autograd_grad objective k) as [g|] eqn:Hg; [|reflexivity].
      reflexivity.
  - intros aps pog gkl shapes Hc theta.
    destruct (compute_actor_grad_aligned _ _ _ _ _ _ _ Hc)
      as (Hkept & _ & _ & Hpog & Hgkl & Hshapes).
    split; [|auto].
    intros Hi. rewrite Forall_forall in Hkept.
    destruct (Hkept i Hi) as (_ & [g Hg] & _). congruence.
Qed.

End ActorGradient.

(** ** The line search *)

Section LineSearch.
Context {R : Type} {T : Torch R} {W : Collaborators R}.

Implicit Types (nps s : list (string * nn_Parameter R)) (aps ws : list nat).
Implicit Types (originals : list (Tensor R)) (shapes : list (list nat)).
Implicit Types (pol : Policy) (l : SearchLocals) (self : TRPO).

Lemma similar_refl (np : string * nn_Parameter R) : similar np np.
Proof. repeat split. Qed.

Lemma similar_sym (np np' : string * nn_Parameter R) : similar np np' -> similar np' np.
Proof. intros (? & ? & ?). repeat split; auto. Qed.

Lemma similar_trans (a b c : string * nn_Parameter R) :
  similar a b -> similar b c -> similar a c.
Proof. intros (? & ? & ?) (? & ? & ?). repeat split; congruence. Qed.

Lemma similar_set_data (t t' : Tensor R) (np np' : string * nn_Parameter R) :
  similar np np' -> shape t = shape t' -> similar (set_data t np) (set_data t' np').
Proof. intros (? & ? & ?) Ht. repeat split; simpl; auto. Qed.

Lemma set_data_similar_eq (t : Tensor R) (np np' : string * nn_Parameter R) :
  similar np np' -> set_data t np = set_data t np'.
Proof. intros (Hn & Hg & _). unfold set_data. rewrite Hn, Hg. reflexivity. Qed.

Lemma Forall2_similar_refl s : Forall2 similar s s.
Proof. induction s; constructor; auto using similar_refl. Qed.

Lemma Forall2_similar_sym s s' : Forall2 similar s s' -> Forall2 similar s' s.
Proof. induction 1; constructor; auto using similar_sym. Qed.

Lemma Forall2_similar_trans s1 s2 s3 :
  Forall2 similar s1 s2 -> Forall2 similar s2 s3 -> Forall2 similar s1 s3.
Proof.
  intros H. revert s3. induction H; intros s3 H3; inversion H3; subst;
    constructor; eauto using similar_trans.
Qed.

Lemma similar_param_at s s' (i : nat) :
  Forall2 similar s s' ->
  match param_at s i, param_at s' i with
  | Ok np, Ok np' => similar np np'
  | Raise e, Raise e' => e = e'
  | _, _ => False
  end.
Proof.
  intros H. unfold param_at.
  pose proof (proj1 (Forall2_lookup _ _ _) H i) as Hi.
  destruct Hi; auto.
Qed.

Lemma tensor_add_shape (a b c : Tensor R) : tensor_add a b = Ok c -> shape c = shape a.
Proof.
  unfold tensor_add. destruct (shape_eqb _ _); [|discriminate].
  intros [= <-]. reflexivity.
Qed.

Lemma snapshot_spec nps aps originals :
  snapshot nps aps = Ok originals -> snapshot_of nps aps originals.
Proof.
  unfold snapshot, snapshot_of. revert originals.
  induction aps as [|i aps IH]; simpl; intros originals H.
  - injection H as <-. constructor.
  - invert_ok H. subst originals. invert_ok Hx. subst x.
    unfold param_at in Hx1. destruct (nps !! i) as [np|] eqn:Hi; [|discriminate].
    injection Hx1 as <-.
    constructor; eauto.
Qed.

Lemma snapshot_of_similar nps s aps originals :
  Forall2 similar nps s ->
  snapshot_of nps aps originals ->
  Forall2 (fun i o => exists np, s !! i = Some np /\ shape o = shape (p_data np.2))
          aps originals.
Proof.
  intros Hs H. eapply Forall2_impl; [exact H|]. simpl.
  intros i o (np & Hnp & ->).
  destruct (Forall2_lookup_l _ _ _ _ _ Hs Hnp) as (np' & Hnp' & (_ & _ & Hsh)).
  eauto.
Qed.

(** A step reads of the parameter list only what [agree] keeps. *)
Lemma apply_step_agree aps :
  forall originals shapes start (coeff step : R) (direction : list R) s s',
    agree (written aps originals shapes) s s' ->
    apply_step s aps originals shapes start coeff step direction
    = apply_step s' aps originals shapes start coeff step direction.
Proof.
  induction aps as [|i aps IH]; intros originals shapes start coeff step direction s s'
    [Hsim Hoff].
  - simpl in *. f_equal. apply list_eq. intros j. apply Hoff, not_elem_of_nil.
  - destruct originals as [|o originals], shapes as [|shp shapes]; simpl in *;
      try (f_equal; apply list_eq; intros j; apply Hoff, not_elem_of_nil).
    pose proof (similar_param_at s s' i Hsim) as Hi.
    destruct (param_at s i) as [np|e], (param_at s' i) as [np'|e'];
      simpl; try contradiction; [|congruence].
    assert (Hn : numel (p_data np.2) = numel (p_data np'.2)).
    { unfold numel. destruct Hi as (_ & _ & ->). reflexivity. }
    rewrite <- Hn.
    destruct (view _ shp) as [v|e]; simpl; [|reflexivity].
    destruct (tensor_add o _) as [new|e]; simpl; [|reflexivity].
    apply IH. split.
    + apply Forall2_insert; [exact Hsim|]. apply similar_set_data; auto.
    + intros j Hj. destruct (decide (i = j)) as [<-|Hne].
      * pose proof (Forall2_length _ _ _ Hsim) as Hlen.
        destruct (decide (i < length s)) as [Hlt|Hge].
        -- rewrite !list_lookup_insert_eq by lia.
           f_equal. apply set_data_similar_eq, Hi.
        -- rewrite !lookup_ge_None_2; [reflexivity| |];
             rewrite length_insert; lia.
      * rewrite !list_lookup_insert_ne by exact Hne.
        apply Hoff. rewrite not_elem_of_cons. auto.
Qed.

(** A step changes the values of the parameters it reaches, and nothing else. *)
Lemma apply_step_similar nps aps :
  forall originals shapes start (coeff step : R) (direction : list R) s s',
    Forall2 (fun i o => exists np, nps !! i = Some np /\ shape o = shape (p_data np.2))
            aps originals ->
    Forall2 similar nps s ->
    apply_step s aps originals shapes start coeff step direction = Ok s' ->
    Forall2 similar nps s'
    /\ forall j, j ∉ written aps originals shapes -> s' !! j = s !! j.
Proof.
  induction aps as [|i aps IH]; intros originals shapes start coeff step direction s s'
    Horig Hsim Hstep.
  - simpl in Hstep. injection Hstep as <-. auto.
  - destruct originals as [|o originals]; [inversion Horig|].
    destruct shapes as [|shp shapes]; simpl in *.
    { injection Hstep as <-. auto. }
    apply Forall2_cons in Horig as [(np0 & Hnp0 & Hshape) Horig].
    invert_ok Hstep.
    unfold param_at in Hx. destruct (s !! i) as [np|] eqn:Hi; [|discriminate].
    injection Hx as <-.
    destruct (Forall2_lookup_lr _ _ _ _ _ _ Hsim Hnp0 Hi) as (Hn & Hg & Hsh).
    apply tensor_add_shape in Hx1.
    assert (Hsim1 : Forall2 similar nps (<[i:=set_data x1 np]> s)).
    { rewrite <- (list_insert_id nps i np0 Hnp0).
      apply Forall2_insert; [exact Hsim|].
      repeat split; simpl; congruence. }
    destruct (IH _ _ _ _ _ _ _ _ Horig Hsim1 Hstep) as [Hsim' Hoff'].
    split; [exact Hsim'|].
    intros j Hj. apply not_elem_of_cons in Hj as [Hne Hj].
    rewrite Hoff' by exact Hj. apply list_lookup_insert_ne. auto.
Qed.

Lemma written_subseteq aps :
  forall originals shapes j, j ∈ written aps originals shapes -> j ∈ aps.
Proof.
  induction aps as [|i aps IH]; intros [|o originals] [|shp shapes] j; simpl;
    try (intros H; apply elem_of_nil in H; contradiction).
  rewrite !elem_of_cons. intros [->|Hj]; eauto.
Qed.

Lemma shrink_from_succ self (c : R) (i : nat) :
  shrink_from self (s_mul c (line_search_shrinking_factor self)) i
  = shrink_from self c (S i).
Proof.
  unfold shrink_from. induction i as [|i IH]; simpl; [reflexivity|].
  rewrite IH. reflexivity.
Qed.

Lemma same_frame_refl l originals pol : same_frame l originals pol pol.
Proof. split; [reflexivity|]. split; [apply Forall2_similar_refl|reflexivity]. Qed.

Lemma agree_sym ws s s' : agree ws s s' -> agree ws s' s.
Proof.
  intros [Hsim Hoff]. split; [apply Forall2_similar_sym, Hsim|].
  intros j Hj. symmetry. apply Hoff, Hj.
Qed.

(** An evaluation that returns has passed the check of the distribution's
    arguments, and leaves the parameters and the optimizer as they are. *)
Lemma evaluate_inv l pol (t : Trial) :
  evaluate l pol = Ok t ->
  validate_args (proba_distribution (parameters_data pol) (observations (rollout_data l)))
  = Ok tt
  /\ named_parameters (trial_policy t) = named_parameters pol
  /\ optimizer (trial_policy t) = optimizer pol
  /\ new_policy_objective t
     = surrogate (the_advantages l)
         (log_prob (proba_distribution (parameters_data pol) (observations (rollout_data l)))
                   (batch_actions l))
         (old_log_prob (rollout_data l))
  /\ kl_arguments t
     = (proba_distribution (parameters_data pol) (observations (rollout_data l)),
        deref (mkPolicy (named_parameters pol)
                        (proba_distribution (parameters_data pol)
                                            (observations (rollout_data l)))
                        (optimizer pol))
              (old_distribution l))
  /\ trial_kl_div t = t_mean (kl_divergence (kl_arguments t).1 (kl_arguments t).2).
Proof.
  unfold evaluate, get_distribution. cbn [deref].
  destruct (validate_args _) as [[]|e]; [|discriminate].
  rewrite bind_ret. intros H. injection H as <-. cbn. auto 6.
Qed.

Lemma evaluate_raises l pol :
  raises (evaluate l pol)
  = raises (validate_args (proba_distribution (parameters_data pol)
                                              (observations (rollout_data l)))).
Proof.
  unfold evaluate, get_distribution. cbn [deref].
  destruct (validate_args _) as [[]|e]; reflexivity.
Qed.

(** A trial starts from the snapshot, not from the trial before it. *)
Lemma run_trial_frame l originals (c : R) pol pol' :
  same_frame l originals pol pol' ->
  run_trial l originals c pol' = run_trial l originals c pol.
Proof.
  intros [Hopt Hag]. unfold run_trial.
  rewrite (apply_step_agree _ _ _ _ _ _ _ _ _ (agree_sym _ _ _ Hag)).
  destruct (apply_step (named_parameters pol) _ _ _ _ _ _ _) as [nps|e]; simpl;
    [|reflexivity].
  unfold evaluate, get_distribution, with_parameters, parameters_data. simpl.
  rewrite Hopt. reflexivity.
Qed.

Lemma run_trial_keeps_frame l originals (c : R) pol pol' (t : Trial) :
  snapshot_of (named_parameters pol) (actor_params l) originals ->
  same_frame l originals pol pol' ->
  run_trial l originals c pol' = Ok t ->
  same_frame l originals pol (trial_policy t).
Proof.
  intros Hsnap [Hopt [Hsim Hoff]] Hrun. unfold run_trial in Hrun.
  apply bind_Ok in Hrun as (x & Hx & Hrun).
  apply evaluate_inv in Hrun as (_ & Hnps & Hopt' & _).
  cbn [with_parameters named_parameters optimizer] in Hnps, Hopt'.
  assert (Horig : Forall2 (fun i o => exists np, named_parameters pol !! i = Some np
                                              /\ shape o = shape (p_data np.2))
                          (actor_params l) originals).
  { eapply Forall2_impl; [exact Hsnap|]. simpl. intros i o (np & Hnp & ->). eauto. }
  destruct (apply_step_similar _ _ _ _ _ _ _ _ _ _ Horig Hsim Hx) as [Hsim' Hoff'].
  split; [congruence|]. rewrite Hnps. split; [exact Hsim'|].
  intros j Hj. rewrite Hoff' by exact Hj. apply Hoff, Hj.
Qed.

Lemma policy_after_cons pol (t : Trial) (ts : list Trial) :
  policy_after pol (t :: ts) = policy_after (trial_policy t) ts.
Proof.
  unfold policy_after. destruct ts as [|t' ts]; simpl; [reflexivity|].
  destruct (last (t' :: ts)) eqn:Hl; [reflexivity|].
  apply last_None in Hl. discriminate.
Qed.

(** What the loop returns, in terms of trials that start from [pol]. *)
Lemma backtrack_sound self l originals pol (n : nat) :
  forall (c : R) pol' rejected (acc : option Trial),
    snapshot_of (named_parameters pol) (actor_params l) originals ->
    same_frame l originals pol pol' ->
    backtrack self l originals n c pol' = Ok (rejected, acc) ->
    (forall j t, rejected !! j = Some t ->
       run_trial l originals (shrink_from self c j) pol = Ok t
       /\ accepted self l t = false)
    /\ match acc with
       | Some t =>
           run_trial l originals (shrink_from self c (length rejected)) pol = Ok t
           /\ accepted self l t = true /\ length rejected < n
       | None => length rejected = n
       end
    /\ same_frame l originals pol (policy_after pol' rejected).
Proof.
  induction n as [|n IH]; intros c pol' rejected acc Hsnap Hframe Hb; simpl in Hb.
  - injection Hb as <- <-. split; [|split; [reflexivity|exact Hframe]].
    intros j t Hj. rewrite lookup_nil in Hj. discriminate.
  - apply bind_Ok in Hb as (t & Ht & Hb).
    pose proof (run_trial_keeps_frame _ _ _ _ _ _ Hsnap Hframe Ht) as Hframe'.
    rewrite (run_trial_frame _ _ _ _ _ Hframe) in Ht.
    destruct (accepted self l t) eqn:Hacc.
    + injection Hb as <- <-. simpl. split; [|split; [|exact Hframe]].
      * intros j t' Hj. rewrite lookup_nil in Hj. discriminate.
      * split; [exact Ht|]. split; [exact Hacc|lia].
    + apply bind_Ok in Hb as ([rejected' acc'] & Hrec & Hb).
      injection Hb as <- <-. simpl.
      destruct (IH _ _ _ _ Hsnap Hframe' Hrec) as (Hrej & Hacc' & Hfr).
      split; [|split].
      * intros [|j] t' Hj; simpl in Hj.
        -- injection Hj as <-. auto.
        -- specialize (Hrej j t' Hj). rewrite shrink_from_succ in Hrej. exact Hrej.
      * destruct acc' as [t'|].
        -- rewrite shrink_from_succ in Hacc'. destruct Hacc' as (? & ? & ?).
           repeat split; auto. lia.
        -- lia.
      * rewrite policy_after_cons. exact Hfr.
Qed.

(** The loop returns when its trials do: with the first trial that passes
    the test among the first [n], or with [n] trials that fail it. *)
Lemma backtrack_complete self l originals pol (n : nat) :
  forall (c : R) pol' (k : nat),
    snapshot_of (named_parameters pol) (actor_params l) originals ->
    same_frame l originals pol pol' ->
    (forall j, j < k -> exists t, run_trial l originals (shrink_from self c j) pol = Ok t
                                  /\ accepted self l t = false) ->
    (k < n -> exists t, run_trial l originals (shrink_from self c k) pol = Ok t
                        /\ accepted self l t = true) ->
    k <= n ->
    exists rejected acc,
      backtrack self l originals n c pol' = Ok (rejected, acc)
      /\ length rejected = k
      /\ (k < n -> is_Some acc) /\ (k = n -> acc = None).
Proof.
  induction n as [|n IH]; intros c pol' k Hsnap Hframe Hrej Hacc Hk; simpl.
  - exists [], None. assert (k = 0) as -> by lia.
    repeat split; auto. lia.
  - destruct k as [|k].
    + destruct Hacc as (t & Ht & Hat); [lia|].
      rewrite (run_trial_frame _ _ _ _ _ Hframe). simpl in Ht. rewrite Ht. simpl.
      rewrite Hat. exists [], (Some t). repeat split; eauto. lia.
    + destruct (Hrej 0) as (t & Ht & Hat); [lia|].
      pose proof Ht as Ht'. rewrite <- (run_trial_frame _ _ _ _ _ Hframe) in Ht'.
      pose proof (run_trial_keeps_frame _ _ _ _ _ _ Hsnap Hframe Ht') as Hframe'.
      simpl in Ht'. rewrite Ht'. simpl. rewrite Hat.
      destruct (IH (s_mul c (line_search_shrinking_factor self)) (trial_policy t) k
                  Hsnap Hframe') as (rejected & acc & Hb & Hlen & Hsome & Hnone).
      * intros j Hj. rewrite shrink_from_succ. apply Hrej. lia.
      * intros Hlt. rewrite shrink_from_succ. apply Hacc. lia.
      * lia.
      * rewrite Hb. simpl. exists (t :: rejected), acc. simpl.
        split; [reflexivity|]. split; [lia|].
        split; intros ?; [apply Hsome|apply Hnone]; lia.
Qed.

(** Writing the snapshot back restores the parameter list. *)
Lemma revert_restores nps aps :
  forall originals s,
    snapshot_of nps aps originals ->
    Forall2 similar nps s ->
    (forall j, j ∉ aps -> s !! j = nps !! j) ->
    revert s aps originals = Ok nps.
Proof.
  induction aps as [|i aps IH]; intros originals s Hsnap Hsim Hoff.
  - inversion Hsnap; subst. simpl. f_equal. apply list_eq. intros j.
    apply Hoff, not_elem_of_nil.
  - destruct originals as [|o originals]; [inversion Hsnap|].
    apply Forall2_cons in Hsnap as [(np0 & Hnp0 & ->) Hsnap]. simpl.
    destruct (Forall2_lookup_l _ _ _ _ _ Hsim Hnp0) as (np & Hnp & Hs).
    unfold param_at. rewrite Hnp. simpl.
    assert (Hentry : set_data (p_data np0.2) np = np0).
    { destruct Hs as (Hn & Hg & _). unfold set_data. rewrite <- Hn, <- Hg.
      destruct np0 as [name [d g]]. reflexivity. }
    rewrite Hentry.
    apply IH; [exact Hsnap| |].
    + rewrite <- (list_insert_id nps i np0 Hnp0) at 1.
      apply Forall2_insert; [exact Hsim|apply similar_refl].
    + intros j Hj. destruct (decide (i = j)) as [<-|Hne].
      * rewrite list_lookup_insert_eq; [auto|]. eapply lookup_lt_Some, Hnp.
      * rewrite list_lookup_insert_ne by exact Hne.
        apply Hoff. rewrite not_elem_of_cons. auto.
Qed.

(** What a line search that returns has done. *)
Lemma line_search_sound self l pol pol' (report : Report R) (trials : list Trial) :
  line_search self l pol = Ok (pol', report, trials) ->
  exists originals rejected acc,
    snapshot (named_parameters pol) (actor_params l) = Ok originals
    /\ backtrack self l originals (Z.to_nat (line_search_max_iter self)) s_one pol
       = Ok (rejected, acc)
    /\ trials = all_trials (rejected, acc)
    /\ match acc with
       | Some t =>
           pol' = trial_policy t
           /\ report = mkReport (new_policy_objective t) (trial_kl_div t) true
       | None =>
           named_parameters pol' = named_parameters pol
           /\ optimizer pol' = optimizer pol
           /\ report = mkReport (policy_objective l) s_zero false
       end.
Proof.
  intros H. unfold line_search in H.
  apply bind_Ok in H as (originals & Hsnap & H).
  apply bind_Ok in H as ([rejected acc] & Hb & H).
  exists originals, rejected, acc. split; [exact Hsnap|]. split; [exact Hb|].
  simpl in H. destruct acc as [t|].
  - injection H as <- <- <-. auto.
  - apply bind_Ok in H as (nps & Hrev & H). injection H as <- <- <-.
    split; [reflexivity|].
    pose proof (snapshot_spec _ _ _ Hsnap) as Hof.
    destruct (backtrack_sound _ _ _ _ _ _ _ _ _ Hof (same_frame_refl _ _ _) Hb)
      as (_ & _ & Hopt & Hsim & Hoff).
    rewrite (revert_restores _ _ _ _ Hof Hsim) in Hrev.
    + injection Hrev as <-. simpl. auto.
    + intros j Hj. symmetry. apply Hoff. intros Hw.
      apply Hj. eapply written_subseteq, Hw.
Qed.

(** A step leaves the other parameters alone. *)
Lemma apply_step_off aps :
  forall originals shapes start (coeff step : R) (direction : list R) s s' j,
    apply_step s aps originals shapes start coeff step direction = Ok s' ->
    j ∉ aps -> s' !! j = s !! j.
Proof.
  induction aps as [|i aps IH]; intros originals shapes start coeff step direction s s' j
    Hstep Hj.
  - simpl in Hstep. injection Hstep as <-. reflexivity.
  - destruct originals as [|o originals], shapes as [|shp shapes]; simpl in Hstep;
      try (injection Hstep as <-; reflexivity).
    invert_ok Hstep. apply not_elem_of_cons in Hj as [Hne Hj].
    rewrite (IH _ _ _ _ _ _ _ _ _ Hstep Hj).
    apply list_lookup_insert_ne. auto.
Qed.

Lemma segment_start_insert s aps (k i : nat) (np : string * nn_Parameter R) :
  i ∉ aps -> segment_start (<[i:=np]> s) aps k = segment_start s aps k.
Proof.
  intros Hi. unfold segment_start. f_equal. apply map_ext_in.
  intros j Hj. rewrite list_lookup_insert_ne; [reflexivity|].
  intros ->. apply Hi. apply list_elem_of_In in Hj.
  eapply subseteq_take, Hj.
Qed.

(** The candidate of a step, tensor by tensor: the [k]-th actor parameter
    becomes its original plus [coeff * step] times its segment of the
    direction, under the [k]-th shape. *)
Lemma apply_step_lookup aps :
  forall originals shapes start (coeff step : R) (direction : list R) s s',
    NoDup aps ->
    apply_step s aps originals shapes start coeff step direction = Ok s' ->
    forall k i o shp,
      aps !! k = Some i -> originals !! k = Some o -> shapes !! k = Some shp ->
      exists np new,
        s !! i = Some np
        /\ view (slice direction (start + segment_start s aps k)
                       (start + segment_start s aps k + numel (p_data np.2))) shp
           ≫= (fun v => tensor_add o (tensor_scale (s_mul coeff step) v)) = Ok new
        /\ s' !! i = Some (set_data new np).
Proof.
  induction aps as [|i0 aps IH]; intros originals shapes start coeff step direction s s'
    Hnd Hstep k i o shp Hk Ho Hshp.
  - rewrite lookup_nil in Hk. discriminate.
  - destruct originals as [|o0 originals]; [rewrite lookup_nil in Ho; discriminate|].
    destruct shapes as [|shp0 shapes]; [rewrite lookup_nil in Hshp; discriminate|].
    apply NoDup_cons in Hnd as [Hi0 Hnd]. simpl in Hstep.
    apply bind_Ok in Hstep as (np0 & Hnp0 & Hstep).
    apply bind_Ok in Hstep as (v & Hv & Hstep).
    apply bind_Ok in Hstep as (new & Hnew & Hstep).
    unfold param_at in Hnp0. destruct (s !! i0) as [np|] eqn:Hs; [|discriminate].
    injection Hnp0 as <-.
    destruct k as [|k]; simpl in Hk, Ho, Hshp.
    + injection Hk as <-. injection Ho as <-. injection Hshp as <-.
      exists np, new. split; [exact Hs|].
      unfold segment_start. simpl. rewrite Nat.add_0_r, Hv. simpl.
      split; [exact Hnew|].
      rewrite (apply_step_off _ _ _ _ _ _ _ _ _ _ Hstep Hi0).
      apply list_lookup_insert_eq. eapply lookup_lt_Some, Hs.
    + assert (Hne : i0 <> i).
      { intros ->. apply Hi0. eapply list_elem_of_lookup_2, Hk. }
      destruct (IH _ _ _ _ _ _ _ _ Hnd Hstep k i o shp Hk Ho Hshp)
        as (np' & new' & Hnp' & Hnew' & Hs').
      rewrite list_lookup_insert_ne in Hnp' by exact Hne.
      rewrite segment_start_insert in Hnew' by exact Hi0.
      exists np', new'. split; [exact Hnp'|]. split; [|exact Hs'].
      replace (start + segment_start s (i0 :: aps) (S k))
        with (start + numel (p_data np.2) + segment_start s aps k); [exact Hnew'|].
      unfold segment_start. simpl. rewrite Hs. lia.
Qed.

Lemma run_trial_inv l originals (c : R) pol (t : Trial) :
  run_trial l originals c pol = Ok t ->
  exists nps,
    apply_step (named_parameters pol) (actor_params l) originals (grad_shape l) 0 c
               (max_step_size l) (search_direction l) = Ok nps
    /\ evaluate l (with_parameters pol nps) = Ok t
    /\ named_parameters (trial_policy t) = nps.
Proof.
  unfold run_trial. intros H. apply bind_Ok in H as (nps & Hstep & H).
  exists nps. split; [exact Hstep|]. split; [exact H|].
  apply evaluate_inv in H as (_ & Hnps & _). exact Hnps.
Qed.

Lemma accepted_iff self l (t : Trial) :
  accepted self l t = true
  <-> s_lt (trial_kl_div t) (target_kl self) = true
      /\ s_lt (policy_objective l) (new_policy_objective t) = true.
Proof. unfold accepted. apply andb_true_iff. Qed.

(** The trials of a line search that returns: trial [i] is the one of
    coefficient [shrink_power self i] from the snapshot, and only the last
    one of a successful search passes the test. *)
Lemma line_search_trials self l pol pol' (report : Report R) (trials : list Trial) :
  line_search self l pol = Ok (pol', report, trials) ->
  exists originals,
    snapshot (named_parameters pol) (actor_params l) = Ok originals
    /\ length trials <= Z.to_nat (line_search_max_iter self)
    /\ (is_line_search_success report = false ->
        length trials = Z.to_nat (line_search_max_iter self))
    /\ forall i t, trials !! i = Some t ->
         trial_at self l originals pol i = Ok t
         /\ (accepted self l t = true
             <-> S i = length trials /\ is_line_search_success report = true).
Proof.
  intros H.
  destruct (line_search_sound _ _ _ _ _ _ H)
    as (originals & rejected & acc & Hsnap & Hb & -> & Hacc).
  pose proof (snapshot_spec _ _ _ Hsnap) as Hof.
  destruct (backtrack_sound _ _ _ _ _ _ _ _ _ Hof (same_frame_refl _ _ _) Hb)
    as (Hrej & Hlast & _).
  exists originals. split; [exact Hsnap|].
  unfold all_trials. simpl. rewrite length_app.
  split; [|split].
  - destruct acc as [t|]; simpl; [destruct Hlast as (_ & _ & ?)|]; lia.
  - destruct acc as [t|]; simpl; [|lia].
    destruct Hacc as [_ ->]. discriminate.
  - intros i t Hi.
    apply lookup_app_Some in Hi as [Hi|[Hge Hi]].
    + destruct (Hrej i t Hi) as [Hrun Hno]. split; [exact Hrun|].
      rewrite Hno. split; [discriminate|]. intros [Hlen Hsucc].
      apply lookup_lt_Some in Hi.
      destruct acc as [t'|]; simpl in Hlen.
      * lia.
      * destruct Hacc as (_ & _ & ->). discriminate.
    + destruct acc as [t'|]; [|rewrite lookup_nil in Hi; discriminate].
      destruct (i - length rejected) as [|m] eqn:Hm; simpl in Hi; [|
        rewrite lookup_nil in Hi; discriminate].
      injection Hi as <-. assert (i = length rejected) as -> by lia.
      destruct Hlast as (Hrun & Hyes & _). split; [exact Hrun|].
      rewrite Hyes. split; [|reflexivity]. intros _.
      destruct Hacc as [_ ->]. simpl. split; [lia|reflexivity].
Qed.

(** C3. In a line search that returns, trial [i] is run on the candidate
    built from the snapshot with the coefficient [c^i] (the shrink factor
    multiplied [i] times into [1.0]) times the maximal step, tensor by tensor
    along the shape list; a trial passes exactly when its divergence is
    strictly under [target_kl] and its objective strictly over the objective
    before the search, and a trial that passes is the last one made: the
    search stops there, reports its objective and divergence, and leaves the
    policy at that trial. *)
Theorem line_search_accepts_first_admissible_trial
    self l pol pol' (report : Report R) (trials : list Trial) :
  line_search self l pol = Ok (pol', report, trials) ->
  exists originals,
    snapshot (named_parameters pol) (actor_params l) = Ok originals
    /\ length trials <= Z.to_nat (line_search_max_iter self)
    /\ (forall i t, trials !! i = Some t ->
          trial_at self l originals pol i = Ok t
          /\ ((s_lt (trial_kl_div t) (target_kl self) = true
                /\ s_lt (policy_objective l) (new_policy_objective t) = true)
               <-> (S i = length trials /\ is_line_search_success report = true)))
    /\ (is_line_search_success report = true ->
          exists t, last trials = Some t
                    /\ pol' = trial_policy t
                    /\ report = mkReport (new_policy_objective t) (trial_kl_div t) true)
    /\ (NoDup (actor_params l) ->
        forall i t, trials !! i = Some t ->
        forall k j o shp,
          actor_params l !! k = Some j ->
          originals !! k = Some o ->
          grad_shape l !! k = Some shp ->
          let start := segment_start (named_parameters pol) (actor_params l) k in
          exists np new,
            named_parameters pol !! j = Some np
            /\ view (slice (search_direction l) start (start + numel (p_data np.2))) shp
               ≫= (fun v => tensor_add o
                              (tensor_scale (s_mul (shrink_power self i) (max_step_size l)) v))
               = Ok new
            /\ named_parameters (trial_policy t) !! j = Some (set_data new np)).
Proof.
  intros H.
  destruct (line_search_trials _ _ _ _ _ _ H) as (originals & Hsnap & Hlen & _ & Htrial).
  exists originals. split; [exact Hsnap|]. split; [exact Hlen|].
  split; [|split].
  - intros i t Hi. destruct (Htrial i t Hi) as [Hrun Hiff].
    split; [exact Hrun|]. rewrite <- accepted_iff. exact Hiff.
  - intros Hsucc.
    destruct (line_search_sound _ _ _ _ _ _ H)
      as (originals' & rejected & acc & _ & _ & -> & Hacc).
    destruct acc as [t|].
    + exists t. destruct Hacc as [-> ->]. unfold all_trials. simpl.
      rewrite last_snoc. auto.
    + destruct Hacc as (_ & _ & Hr). rewrite Hr in Hsucc. discriminate.
  - intros Hnd i t Hi k j o shp Hk Ho Hshp start.
    destruct (Htrial i t Hi) as [Hrun _].
    apply run_trial_inv in Hrun as (nps & Hstep & _ & ->).
    exact (apply_step_lookup _ _ _ _ _ _ _ _ _ Hnd Hstep k j o shp Hk Ho Hshp).
Qed.

(** A line search whose trials all run and fail the test returns, with the
    parameter list it started from. *)
Lemma line_search_exhausted self l pol originals :
  snapshot (named_parameters pol) (actor_params l) = Ok originals ->
  (forall i, i < Z.to_nat (line_search_max_iter self) ->
     exists t, trial_at self l originals pol i = Ok t /\ accepted self l t = false) ->
  exists pol' trials,
    line_search self l pol
    = Ok (pol', mkReport (policy_objective l) s_zero false, trials)
    /\ named_parameters pol' = named_parameters pol
    /\ length trials = Z.to_nat (line_search_max_iter self).
Proof.
  intros Hsnap Hall.
  pose proof (snapshot_spec _ _ _ Hsnap) as Hof.
  destruct (backtrack_complete self l originals pol
              (Z.to_nat (line_search_max_iter self)) s_one pol
              (Z.to_nat (line_search_max_iter self)) Hof (same_frame_refl _ _ _))
    as (rejected & acc & Hb & Hlen & _ & Hnone); [exact Hall|lia|lia|].
  rewrite (Hnone eq_refl) in Hb.
  destruct (backtrack_sound _ _ _ _ _ _ _ _ _ Hof (same_frame_refl _ _ _) Hb)
    as (_ & _ & Hopt & Hsim & Hoff).
  unfold line_search. rewrite Hsnap. simpl. rewrite Hb. simpl.
  rewrite (revert_restores _ _ _ _ Hof Hsim).
  - simpl. eexists _, _. split; [reflexivity|]. split; [reflexivity|].
    unfold all_trials. simpl. rewrite length_app. simpl. lia.
  - intros j Hj. symmetry. apply Hoff. intros Hw.
    apply Hj. eapply written_subseteq, Hw.
Qed.

End LineSearch.

(** ** One pass of the actor loop *)

Section TrainStep.
Context {R : Type} {T : Torch R} {W : Collaborators R}.

Implicit Types (self : TRPO) (full_batch : Samples) (p : Prepared) (d : Direction R).
Implicit Types (l : SearchLocals) (o : ActorOutcome).

Lemma parameters_data_set_grad (g : option (Tensor R))
    (nps : list (string * nn_Parameter R)) :
  map (fun np => p_data np.2) (map (set_grad g) nps) = map (fun np => p_data np.2) nps.
Proof. rewrite map_map. reflexivity. Qed.

Lemma prepare_named_parameters self full_batch :
  named_parameters (pr_policy (prepare self full_batch))
  = map (set_grad None) (named_parameters (policy self)).
Proof. reflexivity. Qed.

Lemma prepare_parameters_data self full_batch :
  parameters_data (pr_policy (prepare self full_batch)) = parameters_data (policy self).
Proof.
  unfold parameters_data. rewrite prepare_named_parameters.
  apply parameters_data_set_grad.
Qed.

(** The old distribution is a copy that holds the distribution of the
    parameters before the update. *)
Lemma prepare_old_distribution self full_batch :
  pr_old_distribution (prepare self full_batch)
  = DistCopy (proba_distribution (parameters_data (policy self))
                                 (observations (sub_sample self full_batch))).
Proof. reflexivity. Qed.

Lemma prepare_first_evaluation self full_batch :
  pr_first_evaluation (prepare self full_batch)
  = (proba_distribution (parameters_data (policy self))
                        (observations (sub_sample self full_batch)),
     proba_distribution (parameters_data (policy self))
                        (observations (sub_sample self full_batch))).
Proof. reflexivity. Qed.

Lemma search_locals_inv self p d l :
  search_locals self p d = Ok l ->
  length (dir_search_direction d) = length (dir_hvp d)
  /\ l = mkLocals (pr_rollout_data p) (pr_actions p) (pr_old_distribution p)
                  (pr_advantages p)
                  (pr_policy_objective p (parameters_data (pr_policy p)))
                  (dir_actor_params d) (dir_grad_shape d) (dir_search_direction d)
                  (s_sqrt (s_div (s_mul s_two (target_kl self))
                                 (t_dot (dir_search_direction d) (dir_hvp d)))).
Proof.
  unfold search_locals, line_search_max_step_size, matmul. intros H.
  destruct (Nat.eqb_spec (length (dir_search_direction d)) (length (dir_hvp d)))
    as [Hlen|Hlen]; simpl in H; [|discriminate].
  injection H as <-. auto.
Qed.

Lemma train_actor_inv self full_batch o :
  train_actor self full_batch = Ok o ->
  let p := prepare self full_batch in
  exists d l pol (report : Report R) (trials : list Trial),
    direction self p = Ok d
    /\ search_locals self p d = Ok l
    /\ line_search self l (pr_policy p) = Ok (pol, report, trials)
    /\ o = mkOutcome (with_policy self pol) report (actor_params l)
                     (pr_first_evaluation p :: map kl_arguments trials).
Proof.
  intros H p. unfold train_actor in H. fold p in H.
  apply bind_Ok in H as (d & Hd & H).
  apply bind_Ok in H as (l & Hl & H).
  apply bind_Ok in H as ([[pol report] trials] & Hls & H).
  injection H as <-. exists d, l, pol, report, trials. auto.
Qed.

(** The second distribution of a trial's divergence is the one the old
    reference holds. *)
Lemma evaluate_kl_arguments l (pol : Policy) (old : Dist) (t : Trial) :
  old_distribution l = DistCopy old ->
  evaluate l pol = Ok t ->
  (kl_arguments t).2 = old
  /\ (kl_arguments t).1
     = proba_distribution (parameters_data pol) (observations (rollout_data l)).
Proof.
  intros H Ht. apply evaluate_inv in Ht as (_ & _ & _ & _ & -> & _).
  rewrite H. auto.
Qed.

(** Without the copy the old reference would be the policy's own object,
    and a trial would compare its distribution with itself. *)
Lemma evaluate_uncopied l (pol : Policy) (t : Trial) :
  old_distribution l = PolicyDist ->
  evaluate l pol = Ok t ->
  (kl_arguments t).2 = (kl_arguments t).1.
Proof.
  intros H Ht. apply evaluate_inv in Ht as (_ & _ & _ & _ & -> & _).
  rewrite H. reflexivity.
Qed.


(** C8. In one pass of the actor loop, every evaluation of the divergence
    (the one the gradients are taken of, and the one of each trial of the
    line search) has for old distribution the distribution of the parameters
    before the update: the copy taken at the start is never replaced. *)
Theorem old_distribution_is_fixed self full_batch o :
  train_actor self full_batch = Ok o ->
  let obs := observations (sub_sample self full_batch) in
  let before := proba_distribution (parameters_data (policy self)) obs in
  Forall (fun e => e.2 = before) (out_kl_evaluations o)
  /\ 1 <= length (out_kl_evaluations o) <= S (Z.to_nat (line_search_max_iter self)).
Proof.
  intros H obs before.
  destruct (train_actor_inv _ _ _ H) as (d & l & pol & report & trials & Hd & Hl & Hls & ->).
  destruct (line_search_trials _ _ _ _ _ _ Hls) as (originals & _ & Hlen & _ & Htrial).
  apply search_locals_inv in Hl as [_ Hl].
  simpl. split.
  - constructor; [reflexivity|].
    apply Forall_forall. intros e He.
    apply list_elem_of_fmap in He as (t & -> & Ht).
    apply list_elem_of_lookup_1 in Ht as [i Hi].
    destruct (Htrial i t Hi) as [Hrun _].
    apply run_trial_inv in Hrun as (nps & _ & Ht & _).
    refine (proj1 (evaluate_kl_arguments l _ before t _ Ht)).
    rewrite Hl. reflexivity.
  - rewrite length_map. lia.
Qed.

(** C4. When every trial of the line search runs and fails the test, the
    pass of the actor loop returns without an exception and records a
    failure; and whenever it returns with a failure recorded, the parameter
    list is the one the search started from, so that every actor parameter
    equals its snapshot, the reported objective is the objective before the
    step, the reported divergence is [0.0], and all the trials were made. *)
Theorem exhausted_line_search_reverts self full_batch :
  let p := prepare self full_batch in
  (forall d l originals,
     direction self p = Ok d ->
     search_locals self p d = Ok l ->
     snapshot (named_parameters (pr_policy p)) (actor_params l) = Ok originals ->
     (forall i, i < Z.to_nat (line_search_max_iter self) ->
        exists t, trial_at self l originals (pr_policy p) i = Ok t
                  /\ accepted self l t = false) ->
     exists o, train_actor self full_batch = Ok o
               /\ is_line_search_success (out_report o) = false)
  /\ (forall o,
        train_actor self full_batch = Ok o ->
        is_line_search_success (out_report o) = false ->
        named_parameters (policy (out_self o)) = named_parameters (pr_policy p)
        /\ (exists originals,
              snapshot (named_parameters (pr_policy p)) (out_actor_params o) = Ok originals
              /\ snapshot (named_parameters (policy (out_self o))) (out_actor_params o)
                 = Ok originals)
        /\ parameters_data (policy (out_self o)) = parameters_data (policy self)
        /\ out_report o
           = mkReport (pr_policy_objective p (parameters_data (policy self))) s_zero false
        /\ length (out_kl_evaluations o) = S (Z.to_nat (line_search_max_iter self))).
Proof.
  intros p. split.
  - intros d l originals Hd Hl Hsnap Hall.
    destruct (line_search_exhausted _ _ _ _ Hsnap Hall) as (pol' & trials & Hls & _ & _).
    unfold train_actor. fold p.
    rewrite Hd, bind_ret, Hl, bind_ret, Hls, bind_ret.
    eexists. split; reflexivity.
  - intros o H Hfail.
    destruct (train_actor_inv _ _ _ H)
      as (d & l & pol & report & trials & Hd & Hl & Hls & ->).
    fold p in Hd, Hl, Hls.
    cbn [out_self out_report out_actor_params out_kl_evaluations policy with_policy] in *.
    destruct (line_search_trials _ _ _ _ _ _ Hls) as (originals & Hsnap & _ & Hlen & _).
    destruct (line_search_sound _ _ _ _ _ _ Hls)
      as (originals' & rejected & acc & _ & _ & _ & Hacc).
    destruct acc as [t|].
    { destruct Hacc as [_ ->]. discriminate. }
    destruct Hacc as (Hnps & _ & ->).
    apply search_locals_inv in Hl as [_ ->].
    cbn [policy_objective actor_params] in *.
    split; [exact Hnps|]. split; [|split; [|split]].
    + exists originals. rewrite Hnps. auto.
    + unfold parameters_data at 1. rewrite Hnps.
      apply (prepare_parameters_data self full_batch).
    + unfold p. rewrite prepare_parameters_data. reflexivity.
    + cbn [length]. rewrite length_map, (Hlen eq_refl). reflexivity.
Qed.


Lemma stride_from_lookup {A} (k : nat) (l : list A) :
  0 < k -> forall skip i, stride_from k skip l !! i = l !! (skip + i * k).
Proof.
  intros Hk. induction l as [|x rest IH]; intros skip i; simpl.
  - rewrite !lookup_nil. reflexivity.
  - destruct skip as [|skip]; simpl.
    + destruct i as [|i]; simpl; [reflexivity|].
      rewrite IH. destruct k as [|k]; [lia|]. simpl.
      rewrite Nat.sub_0_r. reflexivity.
    + apply IH.
Qed.

(** [l[::k]] keeps the elements of positions 0, k, 2k, ... *)
Lemma stride_lookup {A} (k : nat) (l : list A) (i : nat) :
  0 < k -> stride k l !! i = l !! (i * k).
Proof. intros Hk. unfold stride. rewrite stride_from_lookup by exact Hk. reflexivity. Qed.

(** C9, as the code has it. With a sub-sampling factor [k > 1] and the
    normalization on, every field of the batch is strided first, and the
    mean and the standard deviation of the normalization are those of the
    strided advantages. *)
Theorem advantages_are_normalized_after_the_stride self full_batch :
  (1 < sub_sampling_factor self)%Z ->
  normalize_advantage self = true ->
  let k := Z.to_nat (sub_sampling_factor self) in
  let p := prepare self full_batch in
  pr_rollout_data p
  = mkSamples (stride k (observations full_batch)) (stride k (actions full_batch)) None
              (stride k (old_log_prob full_batch)) (stride k (advantages full_batch)) None
  /\ pr_advantages p
     = map (fun a => s_div (s_sub a (t_mean (stride k (advantages full_batch))))
                           (s_add (t_std (stride k (advantages full_batch))) s_eps))
           (stride k (advantages full_batch))
  /\ forall d l, search_locals self p d = Ok l -> the_advantages l = pr_advantages p.
Proof.
  intros Hk Hnorm k p.
  assert (Hsub : sub_sample self full_batch
                 = mkSamples (stride k (observations full_batch))
                             (stride k (actions full_batch)) None
                             (stride k (old_log_prob full_batch))
                             (stride k (advantages full_batch)) None).
  { unfold sub_sample. apply Z.gtb_lt in Hk. rewrite Hk. reflexivity. }
  split; [exact Hsub|]. split.
  - change (pr_advantages p) with (batch_advantages self (sub_sample self full_batch)).
    unfold batch_advantages. rewrite Hnorm, Hsub. reflexivity.
  - intros d l Hl. apply search_locals_inv in Hl as [_ ->]. reflexivity.
Qed.

Lemma mapM_result_inv {A B} (f : A -> result B) (xs : list A) (ys : list B) :
  mapM f xs = Ok ys -> Forall2 (fun x y => f x = Ok y) xs ys.
Proof.
  revert ys. induction xs as [|x xs IH]; simpl; intros ys H.
  - injection H as <-. constructor.
  - invert_ok H. subst ys. constructor; auto.
Qed.

Lemma zip_broadcast_same_length (op : R -> R -> R) (a b : list R) :
  length a = length b -> zip_broadcast op a b = zip_with op a b.
Proof.
  intros Hlen. unfold zip_broadcast.
  destruct a as [|x [|x' a]], b as [|y [|y' b]]; simpl in *; try reflexivity;
    discriminate.
Qed.

Lemma elementwise_inv (op : R -> R -> R) (a b r : list R) :
  elementwise op a b = Ok r -> r = zip_broadcast op a b.
Proof.
  unfold elementwise. destruct (broadcastable _ _); [|discriminate].
  intros [= <-]. reflexivity.
Qed.

Lemma flat_grad_inv (theta : Params R) (output : DScalar R) (params : list nat)
    (rg : bool) (g : list R) :
  flat_grad theta output params rg = Ok g ->
  exists grads,
    Forall2 (fun i gr => exists dg, autograd_grad output i = Some dg
                                    /\ gr = data (dg theta)) params grads
    /\ g = concat grads.
Proof.
  unfold flat_grad. intros H. apply bind_Ok in H as (grads & Hm & Hcat).
  exists grads. split.
  - apply mapM_result_inv in Hm. eapply Forall2_impl; [exact Hm|]. simpl.
    intros i gr Hi. destruct (autograd_grad output i) as [dg|]; [|discriminate].
    injection Hi as <-. eauto.
  - unfold cat in Hcat. destruct grads; [discriminate|]. injection Hcat as <-.
    reflexivity.
Qed.

Lemma hessian_vector_product_inv self (params : list nat) (grad_kl : DVector R)
    (v : list R) (rg : bool) (r : list R) :
  hessian_vector_product self params grad_kl v rg = Ok r ->
  exists g,
    flat_grad (parameters_data (policy self))
              (fun th => t_sum (zip_broadcast s_mul (grad_kl th) v)) params rg = Ok g
    /\ r = zip_broadcast s_add g (scale (cg_damping self) v).
Proof.
  unfold hessian_vector_product. destruct (broadcastable _ _); [|discriminate].
  intros H. apply bind_Ok in H as (g & Hg & H). exists g. split; [exact Hg|].
  apply elementwise_inv, H.
Qed.

Lemma direction_inv self p d :
  direction self p = Ok d ->
  let self' := with_policy self (pr_policy p) in
  exists pog,
    _compute_actor_grad self' (pr_kl_div p) (pr_policy_objective p)
    = Ok (dir_actor_params d, pog, dir_grad_kl d, dir_grad_shape d)
    /\ conjugate_gradient_solver
         (fun v => hessian_vector_product self' (dir_actor_params d) (dir_grad_kl d) v true)
         pog (cg_max_steps self) = Ok (dir_search_direction d)
    /\ hessian_vector_product self' (dir_actor_params d) (dir_grad_kl d)
                              (dir_search_direction d) false = Ok (dir_hvp d).
Proof.
  intros H self'. unfold direction in H. fold self' in H.
  apply bind_Ok in H as ([[[aps pog] gkl] shapes] & Hc & H).
  apply bind_Ok in H as (sd & Hsd & H).
  apply bind_Ok in H as (hvp & Hhvp & H).
  injection H as <-. exists pog. auto.
Qed.

(** C2. In a pass of the actor loop that returns, the maximal step length
    is [sqrt(2 * target_kl / (x . Hv(x)))], with [x] what the conjugate
    gradient solver returned for the operator [Hv] and the flattened
    gradient of the objective; and [Hv(v)], when it returns, is the
    concatenation, in the order of the actor parameters, of the gradients
    of [sum(grad_kl * v)] with respect to each of them, plus
    [cg_damping * v]: a vector of the size of [v] when the flattened
    gradient has that size. *)
Theorem maximal_step_length_formula self full_batch o :
  train_actor self full_batch = Ok o ->
  let p := prepare self full_batch in
  let self' := with_policy self (pr_policy p) in
  let theta := parameters_data (policy self) in
  exists d l pog,
    direction self p = Ok d
    /\ search_locals self p d = Ok l
    /\ conjugate_gradient_solver
         (fun v => hessian_vector_product self' (dir_actor_params d) (dir_grad_kl d) v true)
         pog (cg_max_steps self) = Ok (dir_search_direction d)
    /\ hessian_vector_product self' (dir_actor_params d) (dir_grad_kl d)
                              (dir_search_direction d) false = Ok (dir_hvp d)
    /\ max_step_size l
       = s_sqrt (s_div (s_mul s_two (target_kl self))
                       (t_dot (dir_search_direction d) (dir_hvp d)))
    /\ forall v rg r,
         hessian_vector_product self' (dir_actor_params d) (dir_grad_kl d) v rg = Ok r ->
         exists grads,
           Forall2 (fun i gr =>
                      exists g,
                        autograd_grad
                          (fun th => t_sum (zip_broadcast s_mul (dir_grad_kl d th) v)) i
                        = Some g
                        /\ gr = data (g theta))
                   (dir_actor_params d) grads
           /\ r = zip_broadcast s_add (concat grads) (scale (cg_damping self) v)
           /\ (length (concat grads) = length v ->
               r = zip_with s_add (concat grads) (scale (cg_damping self) v)
               /\ length r = length v).
Proof.
  intros H p self' theta.
  destruct (train_actor_inv _ _ _ H) as (d & l & pol & report & trials & Hd & Hl & _ & _).
  fold p in Hd, Hl.
  destruct (direction_inv _ _ _ Hd) as (pog & _ & Hcg & Hhvp). fold self' in Hcg, Hhvp.
  exists d, l, pog. split; [exact Hd|]. split; [exact Hl|].
  split; [exact Hcg|]. split; [exact Hhvp|].
  pose proof (search_locals_inv _ _ _ _ Hl) as [_ Hl'].
  split; [rewrite Hl'; reflexivity|].
  intros v rg r Hr.
  apply hessian_vector_product_inv in Hr as (g & Hg & ->).
  replace (parameters_data (policy self')) with theta in Hg
    by (symmetry; apply (prepare_parameters_data self full_batch)).
  apply flat_grad_inv in Hg as (grads & Hgrads & ->).
  exists grads. split; [exact Hgrads|]. split; [reflexivity|].
  intros Hlen.
  assert (Hlen' : length (concat grads) = length (scale (cg_damping self) v)).
  { unfold scale. rewrite length_map. exact Hlen. }
  rewrite (zip_broadcast_same_length _ _ _ Hlen'). split; [reflexivity|].
  rewrite length_zip_with, <- Hlen'. lia.
Qed.

End TrainStep.

(** ** The critic update *)

Section Critic.
Context {R : Type} {T : Torch R} {W : Collaborators R}.

Implicit Types (self : TRPO) (pol : Policy) (aps : list nat).
Implicit Types (nps : list (string * nn_Parameter R)).

Lemma foldl_alter_lookup {A} (f : A -> A) (s : list A) (aps : list nat) (j : nat) :
  (forall x, f (f x) = f x) ->
  foldl (fun s i => alter f i s) s aps !! j
  = if decide (j ∈ aps) then f <$> s !! j else s !! j.
Proof.
  intros Hidem. revert s. induction aps as [|i aps IH]; intros s; cbn [foldl].
  - destruct (decide (j ∈ [])) as [Hj|_]; [|reflexivity].
    apply elem_of_nil in Hj. contradiction.
  - rewrite IH. destruct (decide (i = j)) as [<-|Hne].
    + rewrite list_lookup_alter_eq.
      destruct (decide (i ∈ i :: aps)) as [_|Hn];
        [|exfalso; apply Hn, list_elem_of_here].
      destruct (decide (i ∈ aps)); [|reflexivity].
      destruct (s !! i); simpl; [rewrite Hidem|]; reflexivity.
    + rewrite list_lookup_alter_ne by exact Hne.
      destruct (decide (j ∈ aps)) as [Hj|Hj], (decide (j ∈ i :: aps)) as [Hj'|Hj'];
        try reflexivity.
      * exfalso. apply Hj'. apply list_elem_of_further, Hj.
      * exfalso. apply elem_of_cons in Hj' as [->|Hj']; auto.
Qed.

Lemma actor_unchanged_refl aps pol : actor_unchanged aps pol pol.
Proof. intros i _ np Hnp. eauto. Qed.

Lemma actor_unchanged_trans aps pol1 pol2 pol3 :
  actor_unchanged aps pol1 pol2 -> actor_unchanged aps pol2 pol3 ->
  actor_unchanged aps pol1 pol3.
Proof.
  intros H12 H23 i Hi np Hnp.
  destruct (H12 i Hi np Hnp) as (np2 & Hnp2 & Hn2 & Hd2).
  destruct (H23 i Hi np2 Hnp2) as (np3 & Hnp3 & Hn3 & Hd3).
  exists np3. repeat split; congruence.
Qed.

(** One minibatch: when the optimizer steps, no actor parameter has a
    gradient, and the step leaves each of them as it is. *)
Lemma critic_step_actor aps pol (minibatch : Samples) pol' (item : R) :
  critic_step aps pol minibatch = Ok (pol', item) ->
  actor_unchanged aps pol pol'
  /\ exists before,
      pol' = optimizer_step before
      /\ forall i, i ∈ aps ->
           forall np, named_parameters before !! i = Some np -> p_grad np.2 = None.
Proof.
  unfold critic_step. destruct (returns minibatch) as [rets|]; [|discriminate].
  intros H. injection H as <- _.
  set (loss := fun th => mse_loss rets (predict_values th (observations minibatch))).
  set (before := clear_actor_grads (backward (zero_grad pol) loss) aps).
  assert (Hbefore : forall i, i ∈ aps ->
            named_parameters before !! i
            = set_grad None <$> named_parameters (backward (zero_grad pol) loss) !! i).
  { intros i Hi. unfold before, clear_actor_grads, with_parameters.
    cbn [named_parameters].
    rewrite foldl_alter_lookup by reflexivity.
    destruct (decide (i ∈ aps)); [reflexivity|contradiction]. }
  split.
  - intros i Hi np Hnp. unfold optimizer_step. cbn [named_parameters].
    rewrite list_lookup_imap, (Hbefore i Hi).
    unfold backward, zero_grad, with_parameters. cbn [named_parameters].
    rewrite list_lookup_imap, list_lookup_fmap, Hnp. simpl.
    destruct (autograd_grad loss i); simpl; eauto.
  - exists before. split; [reflexivity|].
    intros i Hi np Hnp. rewrite (Hbefore i Hi) in Hnp.
    destruct (named_parameters (backward (zero_grad pol) loss) !! i); [|discriminate].
    injection Hnp as <-. reflexivity.
Qed.

Lemma critic_pass_actor aps (minibatches : list Samples) :
  forall pol pol' (losses : list R),
    critic_pass aps pol minibatches = Ok (pol', losses) ->
    actor_unchanged aps pol pol'.
Proof.
  induction minibatches as [|minibatch rest IH]; simpl; intros pol pol' losses H.
  - injection H as <- _. apply actor_unchanged_refl.
  - apply bind_Ok in H as ([pol1 item] & Hstep & H).
    apply bind_Ok in H as ([pol2 items] & Hrest & H).
    injection H as <- _. simpl in *.
    eapply actor_unchanged_trans; [eapply critic_step_actor, Hstep|].
    eapply IH, Hrest.
Qed.

Lemma critic_update_actor self aps (passes : nat) :
  forall pol (pass : nat) pol' (losses : list R),
    critic_update self aps pol passes pass = Ok (pol', losses) ->
    actor_unchanged aps pol pol'.
Proof.
  induction passes as [|passes IH]; simpl; intros pol pass pol' losses H.
  - injection H as <- _. apply actor_unchanged_refl.
  - apply bind_Ok in H as ([pol1 items] & Hpass & H).
    apply bind_Ok in H as ([pol2 items'] & Hrest & H).
    injection H as <- _. simpl in *.
    eapply actor_unchanged_trans; [eapply critic_pass_actor, Hpass|].
    eapply IH, Hrest.
Qed.

(** C5. Every pass of the critic update, and all of them together, leave
    each actor parameter with the name and the values it had: in each
    minibatch the gradients of the actor parameters are [None] when the
    optimizer steps. In a call of [train] over one batch, the actor
    parameters at the end are those the actor step left. *)
Theorem critic_update_keeps_actor_parameters self aps :
  (forall pol (minibatch : Samples) pol' (item : R),
     critic_step aps pol minibatch = Ok (pol', item) ->
     exists before,
       pol' = optimizer_step before
       /\ forall i, i ∈ aps ->
            forall np, named_parameters before !! i = Some np -> p_grad np.2 = None)
  /\ (forall pol (minibatches : list Samples) pol' (losses : list R),
        critic_pass aps pol minibatches = Ok (pol', losses) ->
        actor_unchanged aps pol pol')
  /\ (forall pol (passes pass : nat) pol' (losses : list R),
        critic_update self aps pol passes pass = Ok (pol', losses) ->
        actor_unchanged aps pol pol')
  /\ (forall (full_batch : Samples) self' (log : TrainLog R),
        buffer_get (rollout_buffer self) None 0 = [full_batch] ->
        train self = Ok (self', log) ->
        exists o,
          train_actor (begin_train self) full_batch = Ok o
          /\ actor_unchanged (out_actor_params o) (policy (out_self o)) (policy self')).
Proof.
  split; [|split; [|split]].
  - intros pol minibatch pol' item H.
    apply critic_step_actor in H as [_ H]. exact H.
  - intros pol minibatches. apply critic_pass_actor.
  - intros pol passes. apply critic_update_actor.
  - intros full_batch self' log Hget H. unfold train in H.
    change (rollout_buffer (begin_train self)) with (rollout_buffer self) in H.
    rewrite Hget in H.
    apply bind_Ok in H as ([[[self1 reports] aps1] evals] & Hactor & H).
    apply bind_Ok in H as ([pol' losses] & Hcritic & H).
    injection H as <- _.
    cbn [actor_loop] in Hactor.
    apply bind_Ok in Hactor as (o & Ho & Hactor).
    injection Hactor as <- _ <- _.
    exists o. split; [exact Ho|].
    cbn [policy with_policy fst]. unfold critic_phase in Hcritic.
    eapply critic_update_actor, Hcritic.
Qed.

End Critic.

Lemma search_inputs_inv {R : Type} {T : Torch R} {W : Collaborators R}
    (self : TRPO) (full_batch : Samples) (l : SearchLocals)
    (originals : list (Tensor R)) :
  search_inputs self full_batch = Ok (l, originals) ->
  let p := prepare self full_batch in
  exists d,
    direction self p = Ok d
    /\ search_locals self p d = Ok l
    /\ snapshot (named_parameters (pr_policy p)) (actor_params l) = Ok originals.
Proof.
  intros Hrun p. unfold search_inputs in Hrun. fold p in Hrun.
  apply bind_Ok in Hrun as (d & Hd & Hrun).
  apply bind_Ok in Hrun as (l' & Hl & Hrun).
  apply bind_Ok in Hrun as (originals' & Hs & Hrun).
  injection Hrun as <- <-. eauto.
Qed.

(** * The properties on the small policy *)

Section Evaluation.

Import BinaryFloat.

(** C10 at [n_steps = 2048], one environment and [batch_size = 100]. *)
Lemma init_fails_only_on_small_buffer_witness :
  Init.env Toy.truncated_batches = Some 1%Z
  /\ Init.batch_size Toy.truncated_batches <> 0%Z
  /\ (raises (Init.sanity_check Toy.truncated_batches) = true <->
        Init.normalize_advantage Toy.truncated_batches = true
        /\ (1 * Init.n_steps Toy.truncated_batches <= 1)%Z)
  /\ (forall ws, Init.sanity_check Toy.truncated_batches = Ok ws ->
        length ws <= 1
        /\ ((0 < Init.batch_size Toy.truncated_batches)%Z ->
            (ws = [] <->
             (Init.batch_size Toy.truncated_batches
              | 1 * Init.n_steps Toy.truncated_batches)%Z))).
Proof.
  split; [reflexivity|]. split; [discriminate|].
  apply (init_fails_only_on_small_buffer Toy.truncated_batches 1);
    [reflexivity|discriminate].
Defined.

(** C10 fails as stated: with [batch_size = 0] the checks raise
    [ZeroDivisionError] although the advantage is not normalized. *)
Lemma init_raises_on_zero_batch_size :
  ~ (forall (a : Init.args) (num_envs : Z),
       Init.env a = Some num_envs ->
       (raises (Init.sanity_check a) = true <->
          Init.normalize_advantage a = true /\ (num_envs * Init.n_steps a <= 1)%Z)).
Proof.
  intros H.
  destruct (H Toy.zero_batch_size 1%Z eq_refl) as [Hraises _].
  destruct (Hraises eq_refl) as [Hnormalize _].
  discriminate Hnormalize.
Qed.

(** The algorithm object when the gradients are taken. *)
Lemma toy_actor_list :
  match _compute_actor_grad
          (with_policy Toy.self (pr_policy (prepare Toy.self Toy.batch)))
          (pr_kl_div (prepare Toy.self Toy.batch))
          (pr_policy_objective (prepare Toy.self Toy.batch)) with
  | Ok (aps, _, _, shapes) => aps = [0; 1] /\ shapes = [[1]; [2]]
  | Raise _ => False
  end.
Proof.
  destruct (_compute_actor_grad _ _ _) as [[[[aps pog] gkl] shapes]|e] eqn:H.
  - apply (f_equal (fun r => match r with
                             | Ok (a, _, _, sh) => (a, sh)
                             | Raise _ => ([], [])
                             end)) in H.
    vm_compute in H. injection H as <- <-. auto.
  - apply (f_equal raises) in H. vm_compute in H. discriminate H.
Qed.

(** C6 on the small policy: the actor list is the shared weight and the
    weight of the action net. *)
Lemma actor_gradients_partitioned_and_aligned_witness :
  let self := with_policy Toy.self (pr_policy (prepare Toy.self Toy.batch)) in
  let kl_div := pr_kl_div (prepare Toy.self Toy.batch) in
  let objective := pr_policy_objective (prepare Toy.self Toy.batch) in
  match _compute_actor_grad self kl_div objective with
  | Ok (aps, pog, gkl, shapes) =>
      (forall i, i ∈ aps ->
         exists np, named_parameters (policy self) !! i = Some np
                    /\ contains "value" np.1 = false)
      /\ length shapes = length aps
      /\ (exists segments : list (list float),
            length segments = length aps
            /\ pog = concat segments
            /\ forall k i, aps !! k = Some i ->
                 exists g, autograd_grad objective i = Some g
                           /\ segments !! k
                              = Some (data (g (parameters_data (policy self)))))
      /\ (exists segments : list (DVector float),
            length segments = length aps
            /\ (forall th, gkl th = concat (map (fun s => s th) segments))
            /\ forall k i, aps !! k = Some i ->
                 exists g s, autograd_grad kl_div i = Some g
                             /\ segments !! k = Some s
                             /\ (forall th, s th = data (g th))
                             /\ shapes !! k
                                = Some (shape (g (parameters_data (policy self)))))
      /\ StronglySorted lt aps
  | Raise _ => False
  end.
Proof.
  intros self kl_div objective.
  pose proof toy_actor_list as Hlist. fold self kl_div objective in Hlist.
  destruct (_compute_actor_grad self kl_div objective)
    as [[[[aps pog] gkl] shapes]|e] eqn:H; [|exact Hlist].
  exact (actor_gradients_partitioned_and_aligned self kl_div objective aps pog gkl
           shapes H).
Defined.

(** C7 on the small policy: the idle parameter. *)
Lemma absent_kl_gradient_is_skipped_witness :
  let self := with_policy Toy.self (pr_policy (prepare Toy.self Toy.batch)) in
  let kl_div := pr_kl_div (prepare Toy.self Toy.batch) in
  let objective := pr_policy_objective (prepare Toy.self Toy.batch) in
  named_parameters (policy self) !! 3 = Some Toy.idle_parameter
  /\ contains "value" Toy.idle_parameter.1 = false
  /\ autograd_grad kl_div 3 = None
  /\ (forall theta objective' acc,
        actor_grad_body theta kl_div objective' acc 3 Toy.idle_parameter.1 = Ok acc)
  /\ (forall objective',
        (forall j, j <> 3 -> autograd_grad objective' j = autograd_grad objective j) ->
        _compute_actor_grad self kl_div objective'
        = _compute_actor_grad self kl_div objective)
  /\ (forall aps pog gkl shapes,
        _compute_actor_grad self kl_div objective = Ok (aps, pog, gkl, shapes) ->
        (3 ∉ aps)
        /\ shapes = map (kl_shape (parameters_data (policy self)) kl_div) aps
        /\ pog = concat (map (objective_segment (parameters_data (policy self))
                                                objective) aps)
        /\ (forall th, gkl th = concat (map (fun j => kl_segment kl_div j th) aps))).
Proof.
  intros self kl_div objective.
  assert (H1 : named_parameters (policy self) !! 3 = Some Toy.idle_parameter)
    by reflexivity.
  assert (H2 : contains "value" Toy.idle_parameter.1 = false) by reflexivity.
  assert (H3 : autograd_grad kl_div 3 = None) by (vm_compute; reflexivity).
  split; [exact H1|]. split; [exact H2|]. split; [exact H3|].
  exact (absent_kl_gradient_is_skipped self kl_div objective 3 Toy.idle_parameter
           H1 H2 H3).
Defined.

(** Runs of the small policy, read off by evaluation. *)
Lemma toy_wide_run :
  match search_run Toy.self_wide Toy.batch with
  | Ok (l, (_, report, trials)) =>
      length trials = 3 /\ is_line_search_success report = true
      /\ actor_params l = [0; 1]
  | Raise _ => False
  end.
Proof.
  assert (Hv : match search_run Toy.self_wide Toy.batch with
               | Ok (l, (_, report, trials)) =>
                   Some (length trials, is_line_search_success report, actor_params l)
               | Raise _ => None
               end = Some (3, true, [0; 1])) by (vm_compute; reflexivity).
  destruct (search_run _ _) as [[l [[pol report] trials]]|e]; [|discriminate Hv].
  injection Hv as -> -> ->. auto.
Qed.

Lemma search_run_inv {R : Type} {T : Torch R} {W : Collaborators R}
    (self : TRPO) (full_batch : Samples)
    (l : SearchLocals) (r : Policy * Report R * list Trial) :
  search_run self full_batch = Ok (l, r) ->
  line_search self l (pr_policy (prepare self full_batch)) = Ok r.
Proof.
  unfold search_run. intros Hrun.
  apply bind_Ok in Hrun as (d & _ & Hrun).
  apply bind_Ok in Hrun as (l' & _ & Hrun).
  apply bind_Ok in Hrun as (r' & Hls & Hrun).
  injection Hrun as <- <-. exact Hls.
Qed.

(** C3 on the small policy with [target_kl = 5]: three trials, the third
    one passes. *)
Lemma line_search_accepts_first_admissible_trial_witness :
  match search_run Toy.self_wide Toy.batch with
  | Ok (l, (pol', report, trials)) =>
      length trials = 3
      /\ is_line_search_success report = true
      /\ exists originals,
          snapshot (named_parameters (pr_policy (prepare Toy.self_wide Toy.batch)))
                   (actor_params l) = Ok originals
          /\ (forall i t, trials !! i = Some t ->
                trial_at Toy.self_wide l originals
                         (pr_policy (prepare Toy.self_wide Toy.batch)) i = Ok t
                /\ ((s_lt (trial_kl_div t) (target_kl Toy.self_wide) = true
                      /\ s_lt (policy_objective l) (new_policy_objective t) = true)
                     <-> (S i = length trials
                          /\ is_line_search_success report = true)))
          /\ (exists t, last trials = Some t /\ pol' = trial_policy t)
  | Raise _ => False
  end.
Proof.
  pose proof toy_wide_run as Hrun.
  destruct (search_run Toy.self_wide Toy.batch)
    as [[l [[pol' report] trials]]|e] eqn:H; [|exact Hrun].
  destruct Hrun as (Hlen & Hsucc & _).
  split; [exact Hlen|]. split; [exact Hsucc|].
  destruct (line_search_accepts_first_admissible_trial
              Toy.self_wide l (pr_policy (prepare Toy.self_wide Toy.batch))
              pol' report trials (search_run_inv _ _ _ _ H))
    as (originals & Hsnap & _ & Htrial & Hlast & _).
  exists originals. split; [exact Hsnap|]. split; [exact Htrial|].
  destruct (Hlast Hsucc) as (t & Ht & Hpol & _). exists t. auto.
Defined.

(** C4 on the small policy with [target_kl = 50] and three iterations: the
    three trials fail the test, the pass returns, and the parameters are
    those before the search. *)
Lemma exhausted_line_search_reverts_witness :
  let p := prepare Toy.self_exhausted Toy.batch in
  match train_actor Toy.self_exhausted Toy.batch with
  | Ok o =>
      is_line_search_success (out_report o) = false
      /\ named_parameters (policy (out_self o)) = named_parameters (pr_policy p)
      /\ parameters_data (policy (out_self o))
         = parameters_data (policy Toy.self_exhausted)
      /\ out_report o
         = mkReport (pr_policy_objective p (parameters_data (policy Toy.self_exhausted)))
                    s_zero false
      /\ length (out_kl_evaluations o) = 4
  | Raise _ => False
  end
  /\ exists o, train_actor Toy.self_exhausted Toy.batch = Ok o
               /\ is_line_search_success (out_report o) = false.
Proof.
  intros p.
  assert (Hfail : match train_actor Toy.self_exhausted Toy.batch with
                  | Ok o => Some (is_line_search_success (out_report o))
                  | Raise _ => None
                  end = Some false) by (vm_compute; reflexivity).
  assert (Hobs : match search_inputs Toy.self_exhausted Toy.batch with
                 | Ok (l, originals) =>
                     forallb (fun i =>
                                match trial_at Toy.self_exhausted l originals
                                               (pr_policy p) i with
                                | Ok t => negb (accepted Toy.self_exhausted l t)
                                | Raise _ => false
                                end) (seq 0 3)
                 | Raise _ => false
                 end = true) by (vm_compute; reflexivity).
  split.
  - destruct (train_actor Toy.self_exhausted Toy.batch) as [o|e] eqn:H;
      [|discriminate Hfail].
    injection Hfail as Hfail.
    destruct (proj2 (exhausted_line_search_reverts Toy.self_exhausted Toy.batch)
                o H Hfail) as (Hnps & _ & Hdata & Hreport & Hlen).
    auto.
  - destruct (search_inputs Toy.self_exhausted Toy.batch) as [[l originals]|e] eqn:Hin;
      [|discriminate Hobs].
    destruct (search_inputs_inv _ _ _ _ Hin) as (d & Hd & Hl & Hs).
    apply (proj1 (exhausted_line_search_reverts Toy.self_exhausted Toy.batch)
             d l originals Hd Hl Hs).
    intros i Hi. change (Z.to_nat (line_search_max_iter Toy.self_exhausted)) with 3 in Hi.
    rewrite forallb_forall in Hobs.
    assert (Hin' : In i (seq 0 3)) by (apply in_seq; lia).
    specialize (Hobs i Hin').
    destruct (trial_at Toy.self_exhausted l originals (pr_policy p) i) as [t|e] eqn:Ht;
      [|discriminate Hobs].
    exists t. split; [exact Ht|]. apply negb_true_iff, Hobs.
Defined.



(** C2 on the small policy; there the flattened gradient of
    [sum(grad_kl * x)] has the three elements of [x]. *)
Lemma maximal_step_length_formula_witness :
  let p := prepare Toy.self Toy.batch in
  let self' := with_policy Toy.self (pr_policy p) in
  let theta := parameters_data (policy Toy.self) in
  match train_actor Toy.self Toy.batch with
  | Ok o =>
      exists d l,
        direction Toy.self p = Ok d
        /\ search_locals Toy.self p d = Ok l
        /\ hessian_vector_product self' (dir_actor_params d) (dir_grad_kl d)
                                  (dir_search_direction d) false = Ok (dir_hvp d)
        /\ max_step_size l
           = s_sqrt (s_div (s_mul s_two (target_kl Toy.self))
                           (t_dot (dir_search_direction d) (dir_hvp d)))
        /\ length (dir_hvp d) = length (dir_search_direction d)
  | Raise _ => False
  end.
Proof.
  intros p self' theta.
  assert (Hok : raises (train_actor Toy.self Toy.batch) = false)
    by (vm_compute; reflexivity).
  assert (Hsize : match direction Toy.self p with
                  | Ok d => Some (length (dir_hvp d), length (dir_search_direction d))
                  | Raise _ => None
                  end = Some (3, 3)) by (vm_compute; reflexivity).
  destruct (train_actor Toy.self Toy.batch) as [o|e] eqn:H; [|discriminate Hok].
  destruct (maximal_step_length_formula Toy.self Toy.batch o H)
    as (d & l & pog & Hd & Hl & _ & Hhvp & Hstep & _).
  exists d, l. fold p in Hd. rewrite Hd in Hsize. injection Hsize as Hh Hx.
  repeat split; auto. congruence.
Defined.

(** C8 on the small policy with [target_kl = 5]: four evaluations of the
    divergence, all against the distribution before the update. *)
Lemma old_distribution_is_fixed_witness :
  match train_actor Toy.self_wide Toy.batch with
  | Ok o =>
      Forall (fun e => e.2 = proba_distribution
                               (parameters_data (policy Toy.self_wide))
                               (observations (sub_sample Toy.self_wide Toy.batch)))
             (out_kl_evaluations o)
      /\ length (out_kl_evaluations o) = 4
  | Raise _ => False
  end.
Proof.
  assert (Hlen : match train_actor Toy.self_wide Toy.batch with
                 | Ok o => Some (length (out_kl_evaluations o))
                 | Raise _ => None
                 end = Some 4) by (vm_compute; reflexivity).
  destruct (train_actor Toy.self_wide Toy.batch) as [o|e] eqn:H; [|discriminate Hlen].
  injection Hlen as Hlen. split; [|exact Hlen].
  exact (proj1 (old_distribution_is_fixed Toy.self_wide Toy.batch o H)).
Defined.

(** C9 on the small policy with a sub-sampling factor of 2. *)
Lemma advantages_are_normalized_after_the_stride_witness :
  (1 < sub_sampling_factor Toy.self_strided)%Z
  /\ normalize_advantage Toy.self_strided = true
  /\ pr_advantages (prepare Toy.self_strided Toy.batch)
     = map (fun a => s_div (s_sub a (t_mean (stride 2 (advantages Toy.batch))))
                           (s_add (t_std (stride 2 (advantages Toy.batch))) s_eps))
           (stride 2 (advantages Toy.batch)).
Proof.
  assert (Hk : (1 < sub_sampling_factor Toy.self_strided)%Z) by reflexivity.
  assert (Hn : normalize_advantage Toy.self_strided = true) by reflexivity.
  split; [exact Hk|]. split; [exact Hn|].
  exact (proj1 (proj2 (advantages_are_normalized_after_the_stride
                         Toy.self_strided Toy.batch Hk Hn))).
Defined.

(** C9 fails as stated: on the advantages [1; -0.5; 2; 0.25] with a factor
    of 2, the advantages the step uses are those normalized over the two
    kept elements, one negative and one positive, and not the kept elements
    of the advantages normalized over the four, both positive. *)
Lemma strided_advantages_are_not_normalized_over_the_full_batch :
  pr_advantages (prepare Toy.self_strided Toy.batch)
  <> stride 2 (normalize (advantages Toy.batch))
  /\ map (fun x => PrimFloat.ltb x 0) (pr_advantages (prepare Toy.self_strided Toy.batch))
     = [true; false]
  /\ map (fun x => PrimFloat.ltb x 0) (stride 2 (normalize (advantages Toy.batch)))
     = [false; false].
Proof.
  split; [|split; vm_compute; reflexivity].
  intros H. apply (f_equal (map (fun x => PrimFloat.ltb x 0))) in H.
  vm_compute in H. discriminate H.
Qed.

(** C5 on the small policy, whose critic shares a weight with the actor:
    two passes over two minibatches each. *)
Lemma critic_update_keeps_actor_parameters_witness :
  buffer_get (rollout_buffer Toy.self) None 0 = [Toy.batch]
  /\ match train Toy.self with
     | Ok (self', log) =>
         length (value_losses log) = 4
         /\ exists o,
             train_actor (begin_train Toy.self) Toy.batch = Ok o
             /\ out_actor_params o = [0; 1]
             /\ actor_unchanged (out_actor_params o) (policy (out_self o)) (policy self')
     | Raise _ => False
     end.
Proof.
  assert (Hget : buffer_get (rollout_buffer Toy.self) None 0 = [Toy.batch])
    by reflexivity.
  assert (Hlen : match train Toy.self with
                 | Ok (_, log) => Some (length (value_losses log))
                 | Raise _ => None
                 end = Some 4) by (vm_compute; reflexivity).
  assert (Haps : match train_actor (begin_train Toy.self) Toy.batch with
                 | Ok o => Some (out_actor_params o)
                 | Raise _ => None
                 end = Some [0; 1]) by (vm_compute; reflexivity).
  split; [exact Hget|].
  destruct (train Toy.self) as [[self' log]|e] eqn:H; [|discriminate Hlen].
  injection Hlen as Hlen. split; [exact Hlen|].
  destruct (proj2 (proj2 (proj2 (critic_update_keeps_actor_parameters Toy.self [])))
              Toy.batch self' log Hget H) as (o & Ho & Hkeep).
  exists o. split; [exact Ho|]. split; [|exact Hkeep].
  rewrite Ho in Haps. injection Haps as Haps. exact Haps.
Defined.

End Evaluation.

(** * Further properties *)

(** ** Construction *)

Section ConstructionEdges.

Import Init.
Local Open Scope Z_scope.

(** The warning of lines 154-161 reports the division of the buffer size by
    the batch size: for a positive batch size, checks that pass either find
    the batch size a divisor and warn of nothing, or issue one warning whose
    number of untruncated batches [q] and size of the truncated batch [r]
    satisfy [buffer_size = q * batch_size + r] with [0 < r < batch_size]. *)
Theorem truncated_batch_warning_reports_the_division
    (a : args) (num_envs : Z) (ws : list warning) :
  env a = Some num_envs ->
  0 < batch_size a ->
  sanity_check a = Ok ws ->
  let buffer_size := num_envs * n_steps a in
  (ws = [] /\ (batch_size a | buffer_size))
  \/ (exists q r,
        ws = [TruncatedMiniBatch (batch_size a) buffer_size q r]
        /\ buffer_size = q * batch_size a + r
        /\ 0 < r < batch_size a).
Proof.
  intros Henv Hpos Hws buffer_size.
  rewrite (sanity_check_Some a num_envs Henv) in Hws by lia.
  fold buffer_size in Hws.
  destruct (normalize_advantage a && negb (buffer_size >? 1)); [discriminate|].
  pose proof (Z.mod_pos_bound buffer_size (batch_size a) Hpos) as Hbound.
  destruct (Z.gtb_spec (buffer_size mod batch_size a) 0) as [Hm|Hm];
    injection Hws as <-.
  - right. exists (buffer_size / batch_size a), (buffer_size mod batch_size a).
    split; [reflexivity|]. split; [|lia].
    rewrite Z.mul_comm. apply Z.div_mod. lia.
  - left. split; [reflexivity|]. apply Z.mod_divide; lia.
Qed.

(** Which exception the checks raise, and what they let through. Without
    an environment nothing is checked. With one, a buffer too small for the
    normalization raises [AssertionError] before the batch size is looked at;
    otherwise a batch size of zero raises [ZeroDivisionError]; and a negative
    batch size is never warned about, whether it divides the buffer size or
    not. *)
Theorem sanity_check_exceptions (a : args) :
  (env a = None -> sanity_check a = Ok [])
  /\ (forall num_envs,
        env a = Some num_envs ->
        (normalize_advantage a = true -> num_envs * n_steps a <= 1 ->
         sanity_check a = Raise AssertionError)
        /\ ((normalize_advantage a = false \/ 1 < num_envs * n_steps a) ->
            batch_size a = 0 ->
            sanity_check a = Raise ZeroDivisionError)
        /\ ((normalize_advantage a = false \/ 1 < num_envs * n_steps a) ->
            batch_size a < 0 ->
            sanity_check a = Ok [])).
Proof.
  split.
  - intros Henv. unfold sanity_check. rewrite Henv. reflexivity.
  - intros num_envs Henv. unfold sanity_check. rewrite Henv.
    unfold assert_, floordiv, pymod. split; [|split].
    + intros -> Hsmall.
      destruct (Z.gtb_spec (num_envs * n_steps a) 1); [lia|reflexivity].
    + intros Hok ->. simpl.
      destruct (normalize_advantage a); [|reflexivity].
      destruct Hok as [Hok|Hok]; [discriminate|].
      destruct (Z.gtb_spec (num_envs * n_steps a) 1); [reflexivity|lia].
    + intros Hok Hneg.
      assert (Hassert : (if normalize_advantage a
                         then if num_envs * n_steps a >? 1 then Ok tt
                              else Raise AssertionError
                         else Ok tt) = Ok tt).
      { destruct (normalize_advantage a); [|reflexivity].
        destruct Hok as [Hok|Hok]; [discriminate|].
        destruct (Z.gtb_spec (num_envs * n_steps a) 1); [reflexivity|lia]. }
      rewrite Hassert. simpl.
      destruct (Z.eqb_spec (batch_size a) 0) as [Hz|Hz]; [lia|]. simpl.
      pose proof (Z.mod_neg_bound (num_envs * n_steps a) (batch_size a) Hneg).
      destruct (Z.gtb_spec ((num_envs * n_steps a) mod batch_size a) 0);
        [lia|reflexivity].
Qed.

End ConstructionEdges.

(** ** The gradient extractor *)

Section ActorList.
Context {R : Type} {T : Torch R} {W : Collaborators R}.

Implicit Types (theta : Params R) (kl_div objective : DScalar R).
Implicit Types (acc : ActorGradLists R) (names : list string).

(** A loop that returns has appended the kept positions, each with a
    gradient of the objective. *)
Lemma actor_grad_loop_selected theta kl_div objective names :
  forall i acc acc',
    actor_grad_loop theta kl_div objective i names acc = Ok acc' ->
    actor_params_list acc'
    = actor_params_list acc ++ selected_positions kl_div i names
    /\ Forall (fun j => is_Some (autograd_grad objective j))
              (selected_positions kl_div i names).
Proof.
  induction names as [|name rest IH]; simpl; intros i acc acc' H.
  - injection H as <-. rewrite app_nil_r. auto.
  - apply bind_Ok in H as (acc1 & Hbody & Hloop).
    destruct (IH _ _ _ Hloop) as [Hlist Hall].
    unfold actor_grad_body in Hbody.
    destruct (contains "value" name); simpl.
    { injection Hbody as <-. auto. }
    destruct (autograd_grad kl_div i) as [g|]; simpl.
    2:{ injection Hbody as <-. auto. }
    destruct (autograd_grad objective i) as [go|] eqn:Hgo; [|discriminate].
    injection Hbody as <-. simpl in Hlist. rewrite <- app_assoc in Hlist.
    split; [exact Hlist|]. constructor; [rewrite Hgo; eauto|exact Hall].
Qed.

(** A call of [_compute_actor_grad] that returns has for actor list
    exactly the list of the positions, in the order of
    [named_parameters()], of the parameters whose name has no "value" and
    that have a gradient of the divergence; that list is not empty
    ([th.cat] raises on an empty list) and each of its parameters is in the
    graph of the objective (whose gradient is asked for without
    [allow_unused]). *)
Theorem actor_list_is_the_selection (self : TRPO) kl_div objective
    (aps : list nat) (pog : list R) (gkl : DVector R) (shapes : list (list nat)) :
  _compute_actor_grad self kl_div objective = Ok (aps, pog, gkl, shapes) ->
  let names := map fst (named_parameters (policy self)) in
  let kept := selected_positions kl_div 0 names in
  aps = kept
  /\ kept <> []
  /\ Forall (fun j => is_Some (autograd_grad objective j)) kept.
Proof.
  intros Hc names kept.
  unfold _compute_actor_grad in Hc.
  apply bind_Ok in Hc as (acc & Hloop & Hc).
  apply bind_Ok in Hc as (pog' & Hpog & Hc).
  apply bind_Ok in Hc as (gkl' & Hgkl & Hc).
  injection Hc as <- _ _ _.
  pose proof (actor_grad_loop_aligned _ _ _ names names 0 empty_lists acc
                (fun k nm H => H) (aligned_empty _ _ _ _) Hloop) as [Ho _ _ _ _ _].
  destruct (actor_grad_loop_selected _ _ _ _ _ _ _ Hloop) as [Hlist Hall].
  simpl in Hlist. fold names kept in Hlist, Hall.
  split; [exact Hlist|]. split; [|exact Hall].
  intros Hempty. rewrite Hlist, Hempty in Ho. simpl in Ho.
  unfold cat in Hpog. rewrite Ho in Hpog. discriminate.
Qed.

End ActorList.

(** ** The sub-sampled batch *)

Section SubSampling.
Context {R : Type} {T : Torch R} {W : Collaborators R}.

Lemma stride_from_length {A} (k : nat) (l : list A) :
  0 < k -> forall skip, skip < k ->
    length (stride_from k skip l) * k = length l + (k - 1 - skip) - (length l + (k - 1 - skip)) mod k.
Proof.
  intros Hk. induction l as [|x rest IH]; intros skip Hskip; simpl.
  - rewrite Nat.mod_small by lia. lia.
  - destruct skip as [|skip]; simpl.
    + rewrite IH by lia.
      replace (k - 1 - (k - 1)) with 0 by lia. rewrite Nat.add_0_r, Nat.sub_0_r.
      replace (S (length rest + (k - 1))) with (length rest + 1 * k) by lia.
      rewrite Nat.Div0.mod_add.
      pose proof (Nat.Div0.mod_le (length rest) k). lia.
    + rewrite IH by lia.
      replace (S (length rest + (k - 1 - S skip))) with (length rest + (k - 1 - skip))
        by lia.
      reflexivity.
Qed.

(** [l[::k]] has [ceil(len(l) / k)] elements. *)
Lemma stride_length {A} (k : nat) (l : list A) :
  0 < k -> length (stride k l) = (length l + (k - 1)) / k.
Proof.
  intros Hk. unfold stride.
  pose proof (stride_from_length k l Hk 0 Hk) as H.
  rewrite Nat.sub_0_r in H.
  pose proof (Nat.div_mod_eq (length l + (k - 1)) k) as Hd.
  nia.
Qed.

(** With a factor [k > 1] the four fields the actor pass reads are cut
    alike: row [i] of the sub-sampled batch is row [i * k] of the batch in
    each of them, a batch of [n] rows leaves [ceil(n / k)], and the old
    values and the returns are dropped. With a factor of 1 or less
    (zero and negative ones included) the batch is the one of the buffer. *)
Theorem sub_sampled_rows_stay_aligned (self : TRPO) (full_batch : Samples) :
  let k := Z.to_nat (sub_sampling_factor self) in
  let rollout_data := sub_sample self full_batch in
  ((1 < sub_sampling_factor self)%Z ->
     (forall i,
        observations rollout_data !! i = observations full_batch !! (i * k)
        /\ actions rollout_data !! i = actions full_batch !! (i * k)
        /\ old_log_prob rollout_data !! i = old_log_prob full_batch !! (i * k)
        /\ advantages rollout_data !! i = advantages full_batch !! (i * k))
     /\ (forall n,
           length (observations full_batch) = n -> length (actions full_batch) = n ->
           length (old_log_prob full_batch) = n -> length (advantages full_batch) = n ->
           length (observations rollout_data) = (n + (k - 1)) / k
           /\ length (actions rollout_data) = (n + (k - 1)) / k
           /\ length (old_log_prob rollout_data) = (n + (k - 1)) / k
           /\ length (advantages rollout_data) = (n + (k - 1)) / k)
     /\ old_values rollout_data = None
     /\ returns rollout_data = None)
  /\ ((sub_sampling_factor self <= 1)%Z -> rollout_data = full_batch).
Proof.
  intros k rollout_data. subst rollout_data. unfold sub_sample. split.
  - intros Hk. assert (Hpos : 0 < k) by (subst k; lia).
    apply Z.gtb_lt in Hk. rewrite Hk. fold k. simpl.
    split; [|split; [|auto]].
    + intros i. rewrite !stride_lookup by exact Hpos. auto.
    + intros n Ho Ha Hl Hadv. rewrite !stride_length by exact Hpos.
      rewrite Ho, Ha, Hl, Hadv. auto.
  - intros Hk. destruct (Z.gtb_spec (sub_sampling_factor self) 1); [lia|reflexivity].
Qed.

End SubSampling.

(** ** The scaled step *)

Section ScaledStep.
Context {R : Type} {T : Torch R} {W : Collaborators R}.

Implicit Types (self : TRPO) (l : SearchLocals) (pol : Policy).
Implicit Types (s : list (string * nn_Parameter R)) (aps : list nat).

Lemma shaped_like_insert s aps (shapes : list (list nat)) (i : nat)
    (np : string * nn_Parameter R) :
  i ∉ aps -> shaped_like s aps shapes -> shaped_like (<[i:=np]> s) aps shapes.
Proof.
  unfold shaped_like. intros Hi H. induction H as [|j shp aps shapes Hj H IH].
  - constructor.
  - apply not_elem_of_cons in Hi as [Hij Hi]. constructor; [|apply IH, Hi].
    destruct Hj as (np' & Hnp' & Hshape). exists np'.
    rewrite list_lookup_insert_ne by exact Hij. auto.
Qed.

(** The inner loop (lines 349-358) over parameters that have the recorded
    shapes: it returns exactly when the direction reaches the end of the
    last segment. *)
Lemma apply_step_covers aps :
  forall (originals : list (Tensor R)) (shapes : list (list nat)) (start : nat)
         (coeff step : R) (direction : list R) s,
    NoDup aps ->
    shaped_like s aps shapes ->
    Forall2 (fun o shp => shape o = shp) originals shapes ->
    start <= length direction ->
    raises (apply_step s aps originals shapes start coeff step direction) = false
    <-> start + sum_list (map numel_of shapes) <= length direction.
Proof.
  induction aps as [|i aps IH]; intros originals shapes start coeff step direction s
    Hnd Hs Ho Hstart.
  - inversion Hs; subst. simpl. split; [lia|reflexivity].
  - inversion Hs as [|? shp ? shapes' (np & Hnp & Hshape) Hs']; subst.
    inversion Ho as [|o ? originals' ? Hoshape Ho']; subst.
    apply NoDup_cons in Hnd as [Hi Hnd].
    cbn [apply_step]. unfold param_at. rewrite Hnp, bind_ret.
    unfold view, slice, numel. rewrite length_take, length_drop.
    cbn [map sum_list sum_list_with].
    destruct (Nat.eqb_spec ((start + numel_of (shape (p_data np.2)) - start)
                              `min` (length direction - start))
                           (numel_of (shape (p_data np.2)))) as [Hfit|Hshort].
    + rewrite bind_ret. unfold tensor_add, shape_eqb. cbn [shape tensor_scale].
      rewrite bool_decide_eq_true_2 by exact Hoshape. rewrite bind_ret.
      rewrite IH;
        [unfold id; lia|exact Hnd|apply shaped_like_insert; assumption|exact Ho'|lia].
    + simpl. split; [discriminate|unfold id; lia].
Qed.

Lemma snapshot_shaped s aps (shapes : list (list nat)) :
  shaped_like s aps shapes ->
  exists originals,
    snapshot s aps = Ok originals
    /\ Forall2 (fun o shp => shape o = shp) originals shapes.
Proof.
  unfold shaped_like, snapshot. intros H.
  induction H as [|i shp aps shapes (np & Hnp & Hshape) H (originals & Hsnap & Ho)].
  - exists []. split; [reflexivity|constructor].
  - exists (p_data np.2 :: originals). cbn [mapM].
    unfold param_at in Hsnap |- *. rewrite Hnp, bind_ret, bind_ret, Hsnap.
    split; [reflexivity|].
    constructor; assumption.
Qed.

(** Trials that return from the policy the search started with return from
    every policy the search passes through. *)
Lemma backtrack_returns self l (originals : list (Tensor R)) pol (n : nat) :
  forall (c : R) pol',
    snapshot_of (named_parameters pol) (actor_params l) originals ->
    (forall j, j < n -> raises (run_trial l originals (shrink_from self c j) pol) = false) ->
    same_frame l originals pol pol' ->
    raises (backtrack self l originals n c pol') = false.
Proof.
  induction n as [|n IH]; intros c pol' Hof Hrun Hframe; [reflexivity|].
  cbn [backtrack].
  destruct (run_trial l originals c pol') as [t|e] eqn:Ht.
  - rewrite bind_ret. destruct (accepted self l t); [reflexivity|].
    pose proof (run_trial_keeps_frame _ _ _ _ _ _ Hof Hframe Ht) as Hframe'.
    assert (Hrun' : forall j, j < n ->
              raises (run_trial l originals
                        (shrink_from self (s_mul c (line_search_shrinking_factor self)) j)
                        pol) = false).
    { intros j Hj. rewrite shrink_from_succ. apply Hrun. lia. }
    specialize (IH (s_mul c (line_search_shrinking_factor self)) (trial_policy t)
                  Hof Hrun' Hframe').
    apply raises_false in IH as [r Hr]. rewrite Hr. reflexivity.
  - rewrite (run_trial_frame _ _ _ _ _ Hframe) in Ht.
    specialize (Hrun 0 (Nat.lt_0_succ n)). change (shrink_from self c 0) with c in Hrun.
    rewrite Ht in Hrun. discriminate Hrun.
Qed.

(** An exception of the loop is the exception of one of its trials. *)
Lemma backtrack_raise self l (originals : list (Tensor R)) pol (n : nat) :
  forall (c : R) pol' (e : exn),
    snapshot_of (named_parameters pol) (actor_params l) originals ->
    same_frame l originals pol pol' ->
    backtrack self l originals n c pol' = Raise e ->
    exists j, j < n /\ run_trial l originals (shrink_from self c j) pol = Raise e.
Proof.
  induction n as [|n IH]; intros c pol' e Hof Hframe H; [discriminate H|].
  cbn [backtrack] in H.
  destruct (run_trial l originals c pol') as [t|e'] eqn:Ht.
  - rewrite bind_ret in H. destruct (accepted self l t); [discriminate H|].
    pose proof (run_trial_keeps_frame _ _ _ _ _ _ Hof Hframe Ht) as Hframe'.
    destruct (backtrack self l originals n _ (trial_policy t)) as [r|e''] eqn:Hb;
      [discriminate H|].
    injection H as ->.
    destruct (IH _ _ _ Hof Hframe' Hb) as (j & Hj & Hrun).
    rewrite shrink_from_succ in Hrun. exists (S j). split; [lia|exact Hrun].
  - injection H as ->. rewrite (run_trial_frame _ _ _ _ _ Hframe) in Ht.
    exists 0. split; [lia|exact Ht].
Qed.

(** When the actor parameters have the shapes recorded with their
    gradients, the inner loop of a trial returns exactly when the search
    direction has at least as many elements as the actor parameters
    together (the elements of a longer one past the last segment are never
    read). A line search of at least one iteration raises on a shorter
    direction, in the [view] of its first trial. On a direction that
    covers the parameters, the one exception a line search can raise is
    that of the forward pass of one of its trials, and it returns when the
    forward pass of each of its candidates does. *)
Theorem line_search_raises_for_size_or_forward_pass self l pol :
  NoDup (actor_params l) ->
  shaped_like (named_parameters pol) (actor_params l) (grad_shape l) ->
  (0 < line_search_max_iter self)%Z ->
  let total := sum_list (map numel_of (grad_shape l)) in
  let candidate originals (i : nat) :=
    apply_step (named_parameters pol) (actor_params l) originals (grad_shape l) 0
               (shrink_power self i) (max_step_size l) (search_direction l) in
  exists originals,
    snapshot (named_parameters pol) (actor_params l) = Ok originals
    /\ (forall i, raises (candidate originals i) = false
                  <-> total <= length (search_direction l))
    /\ (length (search_direction l) < total -> raises (line_search self l pol) = true)
    /\ (total <= length (search_direction l) ->
        (forall e, line_search self l pol = Raise e ->
           exists i nps,
             i < Z.to_nat (line_search_max_iter self)
             /\ candidate originals i = Ok nps
             /\ evaluate l (with_parameters pol nps) = Raise e)
        /\ ((forall i nps,
               i < Z.to_nat (line_search_max_iter self) ->
               candidate originals i = Ok nps ->
               raises (evaluate l (with_parameters pol nps)) = false) ->
            raises (line_search self l pol) = false)).
Proof.
  intros Hnd Hshaped Hiter total candidate.
  destruct (snapshot_shaped _ _ _ Hshaped) as (originals & Hsnap & Ho).
  pose proof (snapshot_spec _ _ _ Hsnap) as Hof.
  exists originals. split; [exact Hsnap|].
  assert (Hstep : forall c,
             raises (apply_step (named_parameters pol) (actor_params l) originals
                                (grad_shape l) 0 c (max_step_size l) (search_direction l))
             = false
             <-> total <= length (search_direction l)).
  { intros c. rewrite (apply_step_covers _ _ _ _ _ _ _ _ Hnd Hshaped Ho) by lia.
    reflexivity. }
  split; [intros i; apply Hstep|]. split.
  - intros Hshort. unfold line_search. rewrite Hsnap, bind_ret.
    destruct (Z.to_nat (line_search_max_iter self)) as [|n] eqn:Hn; [lia|].
    cbn [backtrack]. unfold run_trial.
    destruct (apply_step (named_parameters pol) (actor_params l) originals (grad_shape l)
                         0 s_one (max_step_size l) (search_direction l)) as [nps|e] eqn:Hs;
      [|reflexivity].
    assert (Hok : raises (apply_step (named_parameters pol) (actor_params l) originals
                            (grad_shape l) 0 s_one (max_step_size l) (search_direction l))
                  = false) by (rewrite Hs; reflexivity).
    apply Hstep in Hok. lia.
  - intros Hlen. split.
    + intros e Hls. unfold line_search in Hls. rewrite Hsnap, bind_ret in Hls.
      destruct (backtrack self l originals (Z.to_nat (line_search_max_iter self)) s_one pol)
        as [[rejected acc]|e'] eqn:Hb.
      * rewrite bind_ret in Hls. destruct acc as [t|]; cbn [snd fst] in Hls;
          [discriminate Hls|].
        destruct (backtrack_sound _ _ _ _ _ _ _ _ _ Hof (same_frame_refl _ _ _) Hb)
          as (_ & _ & _ & Hsim & Hoff).
        rewrite (revert_restores _ _ _ _ Hof Hsim) in Hls; [discriminate Hls|].
        intros j Hj. symmetry. apply Hoff. intros Hw.
        apply Hj. eapply written_subseteq, Hw.
      * injection Hls as ->.
        destruct (backtrack_raise _ _ _ _ _ _ _ _ Hof (same_frame_refl _ _ _) Hb)
          as (i & Hi & Hrun).
        change (shrink_from self s_one i) with (shrink_power self i) in Hrun.
        unfold run_trial in Hrun.
        destruct (proj1 (raises_false _) (proj2 (Hstep (shrink_power self i)) Hlen))
          as [nps Hnps].
        rewrite Hnps, bind_ret in Hrun. exists i, nps. auto.
    + intros Hforward.
      assert (Hrun : forall j, j < Z.to_nat (line_search_max_iter self) ->
                raises (run_trial l originals (shrink_from self s_one j) pol) = false).
      { intros j Hj. change (shrink_from self s_one j) with (shrink_power self j).
        unfold run_trial.
        destruct (proj1 (raises_false _) (proj2 (Hstep (shrink_power self j)) Hlen))
          as [nps Hnps].
        rewrite Hnps, bind_ret. apply (Hforward j nps Hj Hnps). }
      pose proof (backtrack_returns self l originals pol
                    (Z.to_nat (line_search_max_iter self)) s_one pol Hof Hrun
                    (same_frame_refl _ _ _)) as Hb.
      apply raises_false in Hb as [[rejected acc] Hb].
      unfold line_search. rewrite Hsnap, bind_ret, Hb, bind_ret.
      destruct acc as [t|]; cbn [snd fst]; [reflexivity|].
      destruct (backtrack_sound _ _ _ _ _ _ _ _ _ Hof (same_frame_refl _ _ _) Hb)
        as (_ & _ & _ & Hsim & Hoff).
      rewrite (revert_restores _ _ _ _ Hof Hsim); [reflexivity|].
      intros j Hj. symmetry. apply Hoff. intros Hw.
      apply Hj. eapply written_subseteq, Hw.
Qed.

End ScaledStep.

(** ** One pass of the actor loop *)

Section ActorPass.
Context {R : Type} {T : Torch R} {W : Collaborators R}.

Implicit Types (self : TRPO) (full_batch : Samples) (l : SearchLocals).
Implicit Types (o : ActorOutcome) (pol : Policy).

(** An evaluation reads the parameters of the policy, not its
    distribution object. *)
Lemma evaluate_ext l pol pol' :
  named_parameters pol = named_parameters pol' ->
  optimizer pol = optimizer pol' ->
  evaluate l pol = evaluate l pol'.
Proof.
  intros Hnps Hopt. unfold evaluate, get_distribution, parameters_data.
  rewrite Hnps, Hopt. reflexivity.
Qed.

(** The policy a line search returns is in the frame of the one it started
    from. *)
Lemma line_search_frame self l pol pol' (report : Report R) (trials : list Trial) :
  line_search self l pol = Ok (pol', report, trials) ->
  optimizer pol' = optimizer pol
  /\ Forall2 similar (named_parameters pol) (named_parameters pol')
  /\ (forall j, j ∉ actor_params l ->
        named_parameters pol' !! j = named_parameters pol !! j)
  /\ match last trials with
     | Some t =>
         is_line_search_success report = true ->
         pol' = trial_policy t
         /\ evaluate l pol' = Ok t
         /\ accepted self l t = true
         /\ report = mkReport (new_policy_objective t) (trial_kl_div t) true
     | None => is_line_search_success report = false
     end
  /\ (is_line_search_success report = false ->
        named_parameters pol' = named_parameters pol
        /\ report = mkReport (policy_objective l) s_zero false).
Proof.
  intros Hls.
  destruct (line_search_sound _ _ _ _ _ _ Hls)
    as (originals & rejected & acc & Hsnap & Hb & -> & Hacc).
  pose proof (snapshot_spec _ _ _ Hsnap) as Hof.
  destruct (backtrack_sound _ _ _ _ _ _ _ _ _ Hof (same_frame_refl _ _ _) Hb)
    as (_ & Hlast & _).
  destruct acc as [t|].
  - destruct Hacc as [-> ->]. destruct Hlast as (Hrun & Hacc & _).
    destruct (run_trial_keeps_frame _ _ _ _ _ _ Hof (same_frame_refl _ _ _) Hrun)
      as (Hopt & Hsim & Hoff).
    split; [auto|]. split; [exact Hsim|]. split.
    { intros j Hj. symmetry. apply Hoff. intros Hw. apply Hj.
      eapply written_subseteq, Hw. }
    unfold all_trials. cbn [fst snd]. rewrite last_snoc. split; [|discriminate].
    intros _. split; [reflexivity|]. split; [|auto].
    apply run_trial_inv in Hrun as (nps & _ & Ht & Hnps).
    rewrite <- Ht. apply evaluate_ext; [exact Hnps|].
    apply evaluate_inv in Ht as (_ & _ & Hopt' & _). exact Hopt'.
  - destruct Hacc as (Hnps & Hopt & ->).
    split; [exact Hopt|]. rewrite Hnps.
    split; [apply Forall2_similar_refl|]. split; [reflexivity|].
    split; [|auto].
    destruct (last _); [discriminate|reflexivity].
Qed.

(** One pass of the actor loop changes nothing but the values of the
    actor parameters: every parameter keeps its name and its shape and
    ends without a gradient, every parameter outside [actor_params] keeps
    its values, no parameter with "value" in its name is among
    [actor_params], and the optimizer and the settings of the algorithm
    are those before the pass. *)
Theorem actor_pass_writes_actor_parameters_only self full_batch o :
  train_actor self full_batch = Ok o ->
  let before := named_parameters (policy self) in
  let after := named_parameters (policy (out_self o)) in
  Forall2 (fun np np' => np'.1 = np.1
                         /\ p_grad np'.2 = None
                         /\ shape (p_data np'.2) = shape (p_data np.2)) before after
  /\ (forall j, j ∉ out_actor_params o -> after !! j = set_grad None <$> before !! j)
  /\ (forall j np, before !! j = Some np -> contains "value" np.1 = true ->
        j ∉ out_actor_params o)
  /\ optimizer (policy (out_self o)) = optimizer (policy self)
  /\ configuration (out_self o) = configuration self
  /\ n_updates (out_self o) = n_updates self.
Proof.
  intros H before after. subst before after.
  destruct (train_actor_inv _ _ _ H) as (d & l & pol & report & trials & Hd & Hl & Hls & ->).
  destruct (line_search_frame _ _ _ _ _ _ Hls) as (Hopt & Hsim & Hoff & _).
  cbn [out_self out_actor_params policy with_policy].
  rewrite prepare_named_parameters in Hsim, Hoff.
  split.
  { apply (proj1 (Forall2_fmap_l (set_grad None) similar _ _)) in Hsim.
    eapply Forall2_impl; [exact Hsim|].
    intros np np' (Hname & Hgrad & Hshape). simpl in *. auto. }
  split.
  { intros j Hj. rewrite (Hoff j Hj). apply list_lookup_fmap. }
  split.
  { intros j np Hnp Hvalue Hj.
    destruct (search_locals_inv _ _ _ _ Hl) as [_ ->]. cbn [actor_params] in Hj.
    destruct (direction_inv _ _ _ Hd) as (pog & Hc & _).
    destruct (compute_actor_grad_aligned _ _ _ _ _ _ _ Hc) as (Hkept & _).
    rewrite Forall_forall in Hkept. apply Hkept in Hj.
    apply kept_named in Hj as (np' & Hnp' & Hvalue').
    cbn [policy with_policy] in Hnp'. rewrite prepare_named_parameters in Hnp'.
    rewrite list_lookup_fmap, Hnp in Hnp'. injection Hnp' as <-.
    simpl in Hvalue'. congruence. }
  split; [rewrite Hopt; reflexivity|]. split; reflexivity.
Qed.

(** What one pass reports describes the policy it leaves. The objective
    logged is the surrogate objective at the parameters the pass ends with,
    after a success as after a failure. After a success the divergence
    logged is the divergence at these parameters from the old distribution,
    it is below [target_kl], and the objective is above its value before
    the step. After a failure the parameters have their values of before
    the pass and the divergence logged is the constant [0.0]. *)
Theorem report_describes_the_final_policy self full_batch o :
  train_actor self full_batch = Ok o ->
  let p := prepare self full_batch in
  let theta' := parameters_data (policy (out_self o)) in
  reported_objective (out_report o) = pr_policy_objective p theta'
  /\ (is_line_search_success (out_report o) = true ->
        reported_kl (out_report o) = pr_kl_div p theta'
        /\ s_lt (pr_kl_div p theta') (target_kl self) = true
        /\ s_lt (pr_policy_objective p (parameters_data (policy self)))
                (pr_policy_objective p theta') = true)
  /\ (is_line_search_success (out_report o) = false ->
        theta' = parameters_data (policy self)
        /\ reported_kl (out_report o) = s_zero).
Proof.
  intros H p theta'. subst theta'.
  destruct (train_actor_inv _ _ _ H) as (d & l & pol & report & trials & Hd & Hl & Hls & ->).
  fold p in Hd, Hl, Hls.
  destruct (line_search_frame _ _ _ _ _ _ Hls) as (_ & _ & _ & Hlast & Hfail).
  destruct (search_locals_inv _ _ _ _ Hl) as [_ Hlocals].
  cbn [out_self out_report policy with_policy].
  assert (Hpre : policy_objective l
                 = pr_policy_objective p (parameters_data (policy self))).
  { rewrite Hlocals. cbn [policy_objective]. unfold p.
    rewrite prepare_parameters_data. reflexivity. }
  assert (Heval : forall t, evaluate l pol = Ok t ->
             new_policy_objective t = pr_policy_objective p (parameters_data pol)
             /\ trial_kl_div t = pr_kl_div p (parameters_data pol)).
  { intros t Ht. apply evaluate_inv in Ht as (_ & _ & _ & Hobj & Hargs & Hkl).
    rewrite Hobj, Hkl, Hargs, Hlocals. split; reflexivity. }
  destruct (is_line_search_success report) eqn:Hflag.
  - destruct (last trials) as [t|]; [|discriminate].
    destruct (Hlast eq_refl) as (_ & Ht & Hacc & ->).
    destruct (Heval t Ht) as [Hobj Hkl].
    apply accepted_iff in Hacc as [Hbound Hbetter].
    rewrite Hpre, Hobj in Hbetter. rewrite Hkl in Hbound.
    cbn [reported_objective reported_kl].
    split; [exact Hobj|]. split; [auto|discriminate].
  - destruct (Hfail eq_refl) as [Hnps ->].
    cbn [reported_objective reported_kl].
    assert (Hdata : parameters_data pol = parameters_data (policy self)).
    { unfold parameters_data at 1. rewrite Hnps. apply prepare_parameters_data. }
    rewrite Hdata. split; [exact Hpre|]. split; [discriminate|auto].
Qed.

End ActorPass.

(** ** The critic step and the log *)

Section Training.
Context {R : Type} {T : Torch R} {W : Collaborators R}.

Implicit Types (self : TRPO) (pol : Policy) (aps : list nat).

Lemma foldl_alter_length {A} (f : A -> A) (aps : list nat) :
  forall s : list A, length (foldl (fun s i => alter f i s) s aps) = length s.
Proof.
  induction aps as [|i aps IH]; intros s; cbn [foldl]; [reflexivity|].
  rewrite IH. apply length_alter.
Qed.

(** One minibatch of the critic update, parameter by parameter. The loss
    logged is the one at the parameters before the step. A parameter of
    [actor_params] is left as it is, without a gradient. Any other
    parameter in the graph of the loss is updated by the optimizer with the
    gradient of this minibatch alone ([zero_grad] has dropped what it held
    before), taken at the parameters before the step, and keeps that
    gradient. A parameter outside the graph is left as it is, without a
    gradient. *)
Theorem critic_step_updates_the_rest aps pol (minibatch : Samples) pol' (item : R) :
  critic_step aps pol minibatch = Ok (pol', item) ->
  exists rets,
    returns minibatch = Some rets
    /\ let value_loss : DScalar R :=
         fun th => mse_loss rets (predict_values th (observations minibatch)) in
       let theta := parameters_data pol in
       item = value_loss theta
       /\ optimizer pol'
          = optimizer_advance (optimizer pol)
              (map (fun np => p_grad np.2) (named_parameters pol'))
       /\ length (named_parameters pol') = length (named_parameters pol)
       /\ forall i np, named_parameters pol !! i = Some np ->
            named_parameters pol' !! i
            = Some (if decide (i ∈ aps) then set_grad None np
                    else match autograd_grad value_loss i with
                         | Some g =>
                             (np.1,
                              mkParameter
                                (optimizer_update (optimizer pol) i (p_data np.2) (g theta))
                                (Some (g theta)))
                         | None => set_grad None np
                         end).
Proof.
  unfold critic_step. destruct (returns minibatch) as [rets|]; [|discriminate].
  intros H. injection H as <- <-. exists rets. split; [reflexivity|].
  set (loss := fun th => mse_loss rets (predict_values th (observations minibatch))).
  set (before := clear_actor_grads (backward (zero_grad pol) loss) aps).
  assert (Hdata : parameters_data (zero_grad pol) = parameters_data pol).
  { unfold parameters_data, zero_grad, with_parameters. cbn [named_parameters].
    rewrite map_map. reflexivity. }
  assert (Hbefore : forall i np, named_parameters pol !! i = Some np ->
            named_parameters before !! i
            = Some (if decide (i ∈ aps) then set_grad None np
                    else match autograd_grad loss i with
                         | Some g => set_grad (Some (g (parameters_data pol))) np
                         | None => set_grad None np
                         end)).
  { intros i np Hnp. unfold before, clear_actor_grads, with_parameters.
    cbn [named_parameters]. rewrite foldl_alter_lookup by reflexivity.
    unfold backward, with_parameters. cbn [named_parameters].
    rewrite list_lookup_imap, Hdata.
    unfold zero_grad, with_parameters. cbn [named_parameters].
    rewrite list_lookup_fmap, Hnp. cbn [fmap option_fmap option_map].
    destruct (decide (i ∈ aps)), (autograd_grad loss i); reflexivity. }
  assert (Hgrads : map (fun np => p_grad np.2) (named_parameters (optimizer_step before))
                   = map (fun np => p_grad np.2) (named_parameters before)).
  { unfold optimizer_step. cbn [named_parameters].
    apply list_eq. intros i. rewrite !list_lookup_fmap, list_lookup_imap.
    destruct (named_parameters before !! i) as [np|]; [|reflexivity].
    cbn [fmap option_fmap option_map].
    destruct (p_grad np.2) eqn:Hg; simpl; rewrite Hg; reflexivity. }
  cbn zeta. split; [reflexivity|]. split.
  { rewrite Hgrads. reflexivity. }
  split.
  { unfold optimizer_step. cbn [named_parameters]. rewrite length_imap.
    unfold before, clear_actor_grads, with_parameters. cbn [named_parameters].
    rewrite foldl_alter_length. unfold backward, with_parameters. cbn [named_parameters].
    rewrite length_imap. unfold zero_grad, with_parameters. cbn [named_parameters].
    apply length_map. }
  intros i np Hnp. unfold optimizer_step. cbn [named_parameters].
  rewrite list_lookup_imap, (Hbefore i np Hnp). cbn [fmap option_fmap option_map].
  f_equal.
  assert (Hopt : optimizer before = optimizer pol) by reflexivity.
  rewrite Hopt.
  destruct (decide (i ∈ aps)); [reflexivity|].
  destruct (autograd_grad loss i); reflexivity.
Qed.

Lemma critic_pass_length aps (minibatches : list Samples) :
  forall pol pol' (losses : list R),
    critic_pass aps pol minibatches = Ok (pol', losses) ->
    length losses = length minibatches.
Proof.
  induction minibatches as [|minibatch rest IH]; intros pol pol' losses H; simpl in H.
  - injection H as _ <-. reflexivity.
  - apply bind_Ok in H as (r & _ & H). apply bind_Ok in H as (r' & Hr' & H).
    injection H as _ <-. destruct r' as [pol'' losses']. simpl.
    f_equal. eapply IH, Hr'.
Qed.

Lemma critic_update_length self aps (passes : nat) :
  forall (pass : nat) pol pol' (losses : list R),
    critic_update self aps pol passes pass = Ok (pol', losses) ->
    length losses
    = sum_list (map (fun k => length (buffer_get (rollout_buffer self)
                                                 (Some (batch_size self)) k))
                    (seq pass passes)).
Proof.
  induction passes as [|passes IH]; intros pass pol pol' losses H; simpl in H.
  - injection H as _ <-. reflexivity.
  - apply bind_Ok in H as ([pol1 losses1] & Hpass & H).
    apply bind_Ok in H as ([pol2 losses2] & Hrest & H).
    injection H as _ <-. cbn [fst snd seq map sum_list sum_list_with].
    rewrite length_app, (critic_pass_length _ _ _ _ _ Hpass), (IH _ _ _ _ Hrest).
    reflexivity.
Qed.

Lemma critic_phase_length self (aps : option (list nat)) pol' (losses : list R) :
  critic_phase self aps = Ok (pol', losses) ->
  length losses
  = sum_list (map (fun k => length (buffer_get (rollout_buffer self)
                                               (Some (batch_size self)) k))
                  (seq 1 (Z.to_nat (n_critic_updates self)))).
Proof.
  unfold critic_phase. destruct aps as [aps|]; [apply critic_update_length|].
  destruct (forallb _ _) eqn:Hall; [|discriminate].
  intros H. injection H as _ <-.
  rewrite forallb_forall in Hall.
  rewrite <- seq_shift, map_map.
  induction (seq 0 (Z.to_nat (n_critic_updates self))) as [|k ks IH]; [reflexivity|].
  cbn [map sum_list sum_list_with].
  rewrite <- IH by (intros x Hx; apply Hall; right; exact Hx).
  specialize (Hall k (or_introl eq_refl)).
  destruct (buffer_get _ _ (S k)); [reflexivity|discriminate].
Qed.

(** The reports of the actor loop: one per batch, each with a divergence
    below [target_kl] after a success and [0.0] after a failure; the loop
    leaves the settings of the algorithm as they are. *)
Lemma actor_loop_reports (batches : list Samples) :
  forall self (aps : option (list nat)) self' (reports : list (Report R))
         (aps' : option (list nat)) (evals : list (Dist * Dist)),
    actor_loop self batches aps = Ok (self', reports, aps', evals) ->
    configuration self' = configuration self
    /\ n_updates self' = n_updates self
    /\ length reports = length batches
    /\ Forall (fun r => if is_line_search_success r
                        then s_lt (reported_kl r) (target_kl self) = true
                        else reported_kl r = s_zero) reports.
Proof.
  induction batches as [|full_batch rest IH];
    intros self aps self' reports aps' evals H; simpl in H.
  - injection H as <- <- _ _. auto.
  - apply bind_Ok in H as (o & Ho & H).
    apply bind_Ok in H as ([[[self1 reports1] aps1] evals1] & Hrest & H).
    injection H as <- <- _ _. cbn [fst snd].
    destruct (IH _ _ _ _ _ _ Hrest) as (Hconf & Hn & Hlen & Hall).
    destruct (train_actor_inv _ _ _ Ho)
      as (d & l & pol & report & trials & _ & _ & Hls & ->).
    cbn [out_self out_report] in *.
    split; [rewrite Hconf; reflexivity|]. split; [rewrite Hn; reflexivity|].
    split; [simpl; rewrite Hlen; reflexivity|].
    constructor; [|exact Hall].
    destruct (line_search_frame _ _ _ _ _ _ Hls) as (_ & _ & _ & Hlast & Hfail).
    destruct (is_line_search_success report) eqn:Hflag.
    + destruct (last trials) as [t|]; [|discriminate].
      destruct (Hlast eq_refl) as (_ & _ & Hacc & ->).
      apply accepted_iff in Hacc as [Hbound _]. exact Hbound.
    + destruct (Hfail eq_refl) as [_ ->]. reflexivity.
Qed.

(** A call of [train] that returns counts one update and keeps the
    settings of the algorithm. The three lists of the actor loop get one
    entry per batch of [rollout_buffer.get(batch_size=None)], the value
    losses one entry per minibatch of each of the [n_critic_updates]
    passes. An entry of the divergence list is below [target_kl] where the
    line search succeeded and is [0.0] where it failed. *)
Theorem train_log_has_one_entry_per_batch self self' (log : TrainLog R) :
  train self = Ok (self', log) ->
  let batches := buffer_get (rollout_buffer self) None 0 in
  let minibatches k := buffer_get (rollout_buffer self) (Some (batch_size self)) k in
  n_updates self' = (n_updates self + 1)%Z
  /\ configuration self' = configuration self
  /\ length (policy_objective_values log) = length batches
  /\ length (kl_divergences log) = length batches
  /\ length (line_search_results log) = length batches
  /\ length (value_losses log)
     = sum_list (map (fun k => length (minibatches k))
                     (seq 1 (Z.to_nat (n_critic_updates self))))
  /\ (forall i kl, kl_divergences log !! i = Some kl ->
        (line_search_results log !! i = Some true
         /\ s_lt kl (target_kl self) = true)
        \/ (line_search_results log !! i = Some false /\ kl = s_zero)).
Proof.
  intros H batches minibatches. unfold train in H.
  apply bind_Ok in H as ([[[self1 reports] aps] evals] & Hloop & H).
  apply bind_Ok in H as ([pol losses] & Hcritic & H).
  injection H as <- <-.
  destruct (actor_loop_reports _ _ _ _ _ _ _ Hloop) as (Hconf & Hn & Hlen & Hall).
  apply critic_phase_length in Hcritic.
  cbn [n_updates policy_objective_values kl_divergences line_search_results
       value_losses fst snd with_policy].
  assert (Hconf' : configuration self1 = configuration self) by exact Hconf.
  injection Hconf' as Hbuf Hdisc Hnorm Hbs Hcg Hdamp Hshrink Hiter Hkl Hcritics Hsub.
  split; [rewrite Hn; reflexivity|].
  split; [exact Hconf|].
  rewrite !length_map. split; [exact Hlen|]. split; [exact Hlen|]. split; [exact Hlen|].
  split.
  { rewrite Hcritic, Hbuf, Hbs, Hcritics. reflexivity. }
  intros i kl Hi. rewrite list_lookup_fmap in Hi. rewrite !list_lookup_fmap.
  destruct (reports !! i) as [r|] eqn:Hr; [|discriminate].
  injection Hi as <-. rewrite Forall_forall in Hall.
  specialize (Hall r (list_elem_of_lookup_2 _ _ _ Hr)).
  cbn [fmap option_fmap option_map].
  destruct (is_line_search_success r); [left|right]; auto.
Qed.

End Training.

(** ** The layout of the flattened vectors *)

Section Layout.
Context {R : Type} {T : Torch R} {W : Collaborators R}.

Implicit Types (s : list (string * nn_Parameter R)) (aps : list nat).

(** The inner loop (lines 349-358) on a direction made of one segment per
    parameter, each of the size of its shape, after [pre]: every parameter
    gets its own segment. *)
Lemma apply_step_segments aps :
  forall (originals : list (Tensor R)) (shapes : list (list nat))
         (segments : list (list R)) (pre : list R) (coeff step : R) s s',
    NoDup aps ->
    shaped_like s aps shapes ->
    Forall2 (fun seg shp => length seg = numel_of shp) segments shapes ->
    apply_step s aps originals shapes (length pre) coeff step (pre ++ concat segments)
    = Ok s' ->
    forall k i o seg,
      aps !! k = Some i -> originals !! k = Some o -> segments !! k = Some seg ->
      exists np,
        s !! i = Some np
        /\ s' !! i
           = Some (set_data (mkTensor (shape o)
                               (zip_with s_add (data o) (scale (s_mul coeff step) seg)))
                            np).
Proof.
  induction aps as [|i aps IH];
    intros originals shapes segments pre coeff step s s' Hnd Hs Hseg H k j o seg Hk Ho Hsg.
  - rewrite lookup_nil in Hk. discriminate.
  - inversion Hs as [|? shp ? shapes' (np & Hnp & Hshape) Hs']; subst.
    inversion Hseg as [|seg0 ? segments' ? Hlen Hseg']; subst.
    destruct originals as [|o0 originals']; [rewrite lookup_nil in Ho; discriminate|].
    apply NoDup_cons in Hnd as [Hi Hnd].
    cbn [apply_step] in H. unfold param_at in H. rewrite Hnp, bind_ret in H.
    assert (Hslice : slice (pre ++ concat (seg0 :: segments')) (length pre)
                           (length pre + numel (p_data np.2)) = seg0).
    { unfold slice, numel. rewrite <- Hlen. cbn [concat].
      rewrite drop_app_length.
      replace (length pre + length seg0 - length pre) with (length seg0) by lia.
      apply take_app_length. }
    rewrite Hslice in H. unfold view in H. rewrite Hlen, Nat.eqb_refl, bind_ret in H.
    unfold tensor_add, shape_eqb in H. cbn [shape tensor_scale data] in H.
    destruct (bool_decide (shape o0 = shape (p_data np.2))); [|discriminate].
    rewrite bind_ret in H.
    destruct k as [|k]; simpl in Hk, Ho, Hsg.
    + injection Hk as <-. injection Ho as <-. injection Hsg as <-.
      exists np. split; [exact Hnp|].
      rewrite (apply_step_off _ _ _ _ _ _ _ _ _ _ H Hi).
      apply list_lookup_insert_eq. apply lookup_lt_Some in Hnp. exact Hnp.
    + assert (Hne : i <> j).
      { intros ->. apply Hi. eapply list_elem_of_lookup_2, Hk. }
      replace (length pre + numel (p_data np.2)) with (length (pre ++ seg0)) in H
        by (rewrite length_app; unfold numel; lia).
      cbn [concat] in H. rewrite app_assoc in H.
      destruct (IH _ _ _ _ _ _ _ _ Hnd (shaped_like_insert _ _ _ _ _ Hi Hs') Hseg' H
                  k j o seg Hk Ho Hsg) as (np' & Hnp' & Hj).
      rewrite list_lookup_insert_ne in Hnp' by exact Hne.
      exists np'. auto.
Qed.

(** The line search reads a flattened vector in the layout in which
    [_compute_actor_grad] writes one: when the actor parameters have the
    shapes recorded and each gradient of the objective has the size of its
    parameter, a step along the flattened gradient of the objective adds
    to each actor parameter the gradient with respect to this parameter,
    scaled. *)
Theorem step_returns_each_segment_to_its_parameter
    (self : TRPO) (kl_div objective : DScalar R) aps (pog : list R) (gkl : DVector R)
    (shapes : list (list nat)) (originals : list (Tensor R)) (coeff step : R) s' :
  let nps := named_parameters (policy self) in
  let theta := parameters_data (policy self) in
  _compute_actor_grad self kl_div objective = Ok (aps, pog, gkl, shapes) ->
  shaped_like nps aps shapes ->
  (forall i, i ∈ aps ->
     length (objective_segment theta objective i) = numel_of (kl_shape theta kl_div i)) ->
  apply_step nps aps originals shapes 0 coeff step pog = Ok s' ->
  forall k i o,
    aps !! k = Some i -> originals !! k = Some o ->
    exists np,
      nps !! i = Some np
      /\ s' !! i
         = Some (set_data
                   (mkTensor (shape o)
                      (zip_with s_add (data o)
                         (scale (s_mul coeff step) (objective_segment theta objective i))))
                   np).
Proof.
  intros nps theta Hc Hshaped Hsize Hstep k i o Hk Ho.
  pose proof (compute_actor_grad_NoDup _ _ _ _ _ _ _ Hc) as Hnd.
  destruct (compute_actor_grad_aligned _ _ _ _ _ _ _ Hc)
    as (_ & _ & _ & Hpog & _ & Hshapes).
  fold theta in Hpog, Hshapes.
  assert (Hseg : Forall2 (fun seg shp => length seg = numel_of shp)
                         (map (objective_segment theta objective) aps) shapes).
  { rewrite Hshapes. apply Forall2_fmap, Forall_Forall2_diag, Forall_forall.
    exact Hsize. }
  rewrite Hpog in Hstep.
  apply (apply_step_segments aps originals shapes _ [] coeff step nps s' Hnd Hshaped
           Hseg Hstep k i o _ Hk Ho).
  rewrite list_lookup_fmap, Hk. reflexivity.
Qed.

(** With no iteration to make ([line_search_max_iter] at most 0) the pass
    makes no trial and reports a failed line search: the objective of
    before the step, the divergence [0.0]; the parameters are those the
    pass started with, and the divergence was evaluated once, for the
    gradients. *)
Theorem no_iteration_reports_failure (self : TRPO) (full_batch : Samples)
    (o : ActorOutcome) :
  (line_search_max_iter self <= 0)%Z ->
  train_actor self full_batch = Ok o ->
  let p := prepare self full_batch in
  out_report o
  = mkReport (pr_policy_objective p (parameters_data (policy self))) s_zero false
  /\ named_parameters (policy (out_self o))
     = map (set_grad None) (named_parameters (policy self))
  /\ out_kl_evaluations o = [pr_first_evaluation p].
Proof.
  intros Hiter H p.
  destruct (train_actor_inv _ _ _ H) as (d & l & pol & report & trials & Hd & Hl & Hls & ->).
  fold p in Hd, Hl, Hls.
  destruct (line_search_sound _ _ _ _ _ _ Hls)
    as (originals & rejected & acc & _ & Hb & -> & Hacc).
  replace (Z.to_nat (line_search_max_iter self)) with 0 in Hb by lia.
  injection Hb as <- <-. destruct Hacc as (Hnps & _ & ->).
  destruct (search_locals_inv _ _ _ _ Hl) as [_ ->].
  cbn [out_report out_self out_kl_evaluations policy with_policy policy_objective].
  rewrite Hnps. unfold p. rewrite prepare_parameters_data.
  split; [reflexivity|]. split; reflexivity.
Qed.

End Layout.

(** ** The further properties on the small policy *)

Section FurtherEvaluation.

Import BinaryFloat.

(** At [n_steps = 2048], one environment and [batch_size = 100]: 20 full
    minibatches and a last one of 48. *)
Lemma truncated_batch_warning_reports_the_division_witness :
  let a := Toy.truncated_batches in
  Init.sanity_check a = Ok [Init.TruncatedMiniBatch 100 2048 20 48]
  /\ (([Init.TruncatedMiniBatch 100 2048 20 48] = []
       /\ (Init.batch_size a | 1 * Init.n_steps a)%Z)
      \/ (exists q r,
            [Init.TruncatedMiniBatch 100 2048 20 48]
            = [Init.TruncatedMiniBatch (Init.batch_size a) (1 * Init.n_steps a) q r]
            /\ (1 * Init.n_steps a = q * Init.batch_size a + r)%Z
            /\ (0 < r < Init.batch_size a)%Z)).
Proof.
  intros a. split; [reflexivity|].
  exact (truncated_batch_warning_reports_the_division a 1%Z
           [Init.TruncatedMiniBatch 100 2048 20 48] eq_refl eq_refl eq_refl).
Defined.

(** The actor list of the small policy: the shared weight and the weight
    of the action net. *)
Lemma actor_list_is_the_selection_witness :
  let self := with_policy Toy.self (pr_policy (prepare Toy.self Toy.batch)) in
  let kl_div := pr_kl_div (prepare Toy.self Toy.batch) in
  let objective := pr_policy_objective (prepare Toy.self Toy.batch) in
  let kept := selected_positions kl_div 0 (map fst (named_parameters (policy self))) in
  match _compute_actor_grad self kl_div objective with
  | Ok (aps, _, _, _) =>
      aps = [0; 1]
      /\ aps = kept
      /\ kept <> []
      /\ Forall (fun j => is_Some (autograd_grad objective j)) kept
  | Raise _ => False
  end.
Proof.
  intros self kl_div objective kept.
  pose proof toy_actor_list as Hlist. fold self kl_div objective in Hlist.
  destruct (_compute_actor_grad self kl_div objective)
    as [[[[aps pog] gkl] shapes]|e] eqn:H; [|exact Hlist].
  split; [exact (proj1 Hlist)|].
  exact (actor_list_is_the_selection self kl_div objective aps pog gkl shapes H).
Defined.

(** On the small policy the direction has the three elements of the two
    actor parameters: every candidate is written, and the line search can
    raise in a forward pass only. *)
Lemma line_search_raises_for_size_or_forward_pass_witness :
  match search_inputs Toy.self Toy.batch with
  | Ok (l, _) =>
      let pol := pr_policy (prepare Toy.self Toy.batch) in
      let total := sum_list (map numel_of (grad_shape l)) in
      let candidate originals (i : nat) :=
        apply_step (named_parameters pol) (actor_params l) originals (grad_shape l) 0
                   (shrink_power Toy.self i) (max_step_size l) (search_direction l) in
      NoDup (actor_params l)
      /\ shaped_like (named_parameters pol) (actor_params l) (grad_shape l)
      /\ (0 < line_search_max_iter Toy.self)%Z
      /\ total = 3
      /\ length (search_direction l) = 3
      /\ exists originals,
          snapshot (named_parameters pol) (actor_params l) = Ok originals
          /\ (forall i, raises (candidate originals i) = false
                        <-> total <= length (search_direction l))
          /\ (length (search_direction l) < total ->
              raises (line_search Toy.self l pol) = true)
          /\ (total <= length (search_direction l) ->
              (forall e, line_search Toy.self l pol = Raise e ->
                 exists i nps,
                   i < Z.to_nat (line_search_max_iter Toy.self)
                   /\ candidate originals i = Ok nps
                   /\ evaluate l (with_parameters pol nps) = Raise e)
              /\ ((forall i nps,
                     i < Z.to_nat (line_search_max_iter Toy.self) ->
                     candidate originals i = Ok nps ->
                     raises (evaluate l (with_parameters pol nps)) = false) ->
                  raises (line_search Toy.self l pol) = false))
  | Raise _ => False
  end.
Proof.
  assert (Hobs : match search_inputs Toy.self Toy.batch with
                 | Ok (l, _) =>
                     Some (actor_params l, grad_shape l, length (search_direction l))
                 | Raise _ => None
                 end = Some ([0; 1], [[1]; [2]], 3)) by (vm_compute; reflexivity).
  destruct (search_inputs Toy.self Toy.batch) as [[l originals]|e];
    [|discriminate Hobs].
  injection Hobs as Haps Hshapes Hlen. intros pol total candidate.
  assert (Hnd : NoDup (actor_params l)).
  { rewrite Haps. apply (bool_decide_unpack _). reflexivity. }
  assert (Hshaped : shaped_like (named_parameters pol) (actor_params l) (grad_shape l)).
  { rewrite Haps, Hshapes. unfold shaped_like.
    constructor; [eexists; split; reflexivity|].
    constructor; [eexists; split; reflexivity|].
    constructor. }
  assert (Hiter : (0 < line_search_max_iter Toy.self)%Z) by reflexivity.
  split; [exact Hnd|]. split; [exact Hshaped|]. split; [exact Hiter|].
  split; [unfold total; rewrite Hshapes; reflexivity|]. split; [exact Hlen|].
  exact (line_search_raises_for_size_or_forward_pass Toy.self l pol Hnd Hshaped Hiter).
Defined.

(** On the small policy with [target_kl = 5]: the pass leaves the value
    net and the idle parameter as they were. *)
Lemma actor_pass_writes_actor_parameters_only_witness :
  match train_actor Toy.self_wide Toy.batch with
  | Ok o =>
      let before := named_parameters (policy Toy.self_wide) in
      let after := named_parameters (policy (out_self o)) in
      Forall2 (fun np np' => np'.1 = np.1
                             /\ p_grad np'.2 = None
                             /\ shape (p_data np'.2) = shape (p_data np.2)) before after
      /\ (forall j, j ∉ out_actor_params o -> after !! j = set_grad None <$> before !! j)
      /\ (forall j np, before !! j = Some np -> contains "value" np.1 = true ->
            j ∉ out_actor_params o)
      /\ optimizer (policy (out_self o)) = optimizer (policy Toy.self_wide)
      /\ configuration (out_self o) = configuration Toy.self_wide
      /\ n_updates (out_self o) = n_updates Toy.self_wide
  | Raise _ => False
  end.
Proof.
  assert (Hok : raises (train_actor Toy.self_wide Toy.batch) = false)
    by (vm_compute; reflexivity).
  destruct (train_actor Toy.self_wide Toy.batch) as [o|e] eqn:H; [|discriminate Hok].
  exact (actor_pass_writes_actor_parameters_only Toy.self_wide Toy.batch o H).
Defined.

(** On the small policy with [target_kl = 5], where the line search
    succeeds at its third trial. *)
Lemma report_describes_the_final_policy_witness :
  match train_actor Toy.self_wide Toy.batch with
  | Ok o =>
      let p := prepare Toy.self_wide Toy.batch in
      let theta' := parameters_data (policy (out_self o)) in
      is_line_search_success (out_report o) = true
      /\ reported_objective (out_report o) = pr_policy_objective p theta'
      /\ reported_kl (out_report o) = pr_kl_div p theta'
      /\ s_lt (pr_kl_div p theta') (target_kl Toy.self_wide) = true
      /\ s_lt (pr_policy_objective p (parameters_data (policy Toy.self_wide)))
              (pr_policy_objective p theta') = true
  | Raise _ => False
  end.
Proof.
  assert (Hflag : match train_actor Toy.self_wide Toy.batch with
                  | Ok o => Some (is_line_search_success (out_report o))
                  | Raise _ => None
                  end = Some true) by (vm_compute; reflexivity).
  destruct (train_actor Toy.self_wide Toy.batch) as [o|e] eqn:H; [|discriminate Hflag].
  injection Hflag as Hflag. intros p theta'.
  destruct (report_describes_the_final_policy Toy.self_wide Toy.batch o H)
    as (Hobj & Hsucc & _).
  destruct (Hsucc Hflag) as (Hkl & Hbound & Hbetter).
  split; [exact Hflag|]. split; [exact Hobj|]. split; [exact Hkl|].
  split; [exact Hbound|exact Hbetter].
Defined.

(** The first minibatch step of the critic on the small policy, with the
    two actor parameters: the weight of the value net is the one
    parameter the optimizer moves. *)
Lemma critic_step_updates_the_rest_witness :
  match critic_step [0; 1] Toy.the_policy Toy.batch with
  | Ok (pol', item) =>
      exists rets,
        returns Toy.batch = Some rets
        /\ item = mse_loss rets (predict_values (parameters_data Toy.the_policy)
                                                (observations Toy.batch))
        /\ length (named_parameters pol') = 4
        /\ (forall i np, named_parameters Toy.the_policy !! i = Some np ->
              i <> 2 -> named_parameters pol' !! i = Some np)
  | Raise _ => False
  end.
Proof.
  destruct (critic_step [0; 1] Toy.the_policy Toy.batch) as [[pol' item]|e] eqn:H;
    [|discriminate H].
  destruct (critic_step_updates_the_rest [0; 1] Toy.the_policy Toy.batch pol' item H)
    as (rets & Hrets & Hitem & _ & Hlen & Hpar).
  exists rets. split; [exact Hrets|]. split; [exact Hitem|]. split; [exact Hlen|].
  injection Hrets as <-.
  intros i np Hnp Hi. rewrite (Hpar i np Hnp). f_equal.
  destruct i as [|[|[|[|i]]]].
  - injection Hnp as <-.
    destruct (decide (0 ∈ [0; 1])) as [_|Hn]; [reflexivity|].
    exfalso. apply Hn, list_elem_of_here.
  - injection Hnp as <-.
    destruct (decide (1 ∈ [0; 1])) as [_|Hn]; [reflexivity|].
    exfalso. apply Hn, list_elem_of_further, list_elem_of_here.
  - contradiction.
  - injection Hnp as <-. vm_compute. reflexivity.
  - discriminate Hnp.
Defined.

(** One call of [train] on the small policy: one batch, two passes of two
    minibatches each. *)
Lemma train_log_has_one_entry_per_batch_witness :
  match train Toy.self with
  | Ok (self', log) =>
      n_updates self' = 1%Z
      /\ configuration self' = configuration Toy.self
      /\ length (policy_objective_values log) = 1
      /\ length (kl_divergences log) = 1
      /\ length (line_search_results log) = 1
      /\ length (value_losses log) = 4
      /\ (forall i kl, kl_divergences log !! i = Some kl ->
            (line_search_results log !! i = Some true
             /\ s_lt kl (target_kl Toy.self) = true)
            \/ (line_search_results log !! i = Some false /\ kl = s_zero))
  | Raise _ => False
  end.
Proof.
  assert (Hok : raises (train Toy.self) = false) by (vm_compute; reflexivity).
  destruct (train Toy.self) as [[self' log]|e] eqn:H; [|discriminate Hok].
  exact (train_log_has_one_entry_per_batch Toy.self self' log H).
Defined.

(** On the small policy: a step along the flattened gradient of the
    objective from the parameters as they are. *)
Lemma step_returns_each_segment_to_its_parameter_witness :
  let self := with_policy Toy.self (pr_policy (prepare Toy.self Toy.batch)) in
  let kl_div := pr_kl_div (prepare Toy.self Toy.batch) in
  let objective := pr_policy_objective (prepare Toy.self Toy.batch) in
  let nps := named_parameters (policy self) in
  let theta := parameters_data (policy self) in
  let originals := map (fun np => p_data np.2) (take 2 nps) in
  match _compute_actor_grad self kl_div objective with
  | Ok (aps, pog, gkl, shapes) =>
      match apply_step nps aps originals shapes 0 s_one s_one pog with
      | Ok s' =>
          forall k i o,
            aps !! k = Some i -> originals !! k = Some o ->
            exists np,
              nps !! i = Some np
              /\ s' !! i
                 = Some (set_data
                           (mkTensor (shape o)
                              (zip_with s_add (data o)
                                 (scale (s_mul s_one s_one)
                                        (objective_segment theta objective i))))
                           np)
      | Raise _ => False
      end
  | Raise _ => False
  end.
Proof.
  intros self kl_div objective nps theta originals.
  pose proof toy_actor_list as Hlist. fold self kl_div objective in Hlist.
  assert (Hobs : match _compute_actor_grad self kl_div objective with
                 | Ok (aps, pog, _, shapes) =>
                     raises (apply_step nps aps originals shapes 0 s_one s_one pog)
                 | Raise _ => true
                 end = false) by (vm_compute; reflexivity).
  assert (Hsize : forall i, i ∈ [0; 1] ->
             length (objective_segment theta objective i)
             = numel_of (kl_shape theta kl_div i)).
  { intros i Hi. apply elem_of_cons in Hi as [->|Hi]; [vm_compute; reflexivity|].
    apply elem_of_cons in Hi as [->|Hi]; [vm_compute; reflexivity|].
    apply elem_of_nil in Hi. contradiction. }
  destruct (_compute_actor_grad self kl_div objective)
    as [[[[aps pog] gkl] shapes]|e] eqn:Hc; [|exact Hlist].
  destruct Hlist as [-> ->].
  destruct (apply_step nps [0; 1] originals [[1]; [2]] 0 s_one s_one pog)
    as [s'|e] eqn:Hstep; [|discriminate Hobs].
  assert (Hshaped : shaped_like nps [0; 1] [[1]; [2]]).
  { unfold shaped_like.
    constructor; [eexists; split; reflexivity|].
    constructor; [eexists; split; reflexivity|].
    constructor. }
  exact (step_returns_each_segment_to_its_parameter self kl_div objective [0; 1] pog gkl
           [[1]; [2]] originals s_one s_one s' Hc Hshaped Hsize Hstep).
Defined.

(** On the small policy with [line_search_max_iter = 0]. *)
Lemma no_iteration_reports_failure_witness :
  match train_actor Toy.self_no_search Toy.batch with
  | Ok o =>
      let p := prepare Toy.self_no_search Toy.batch in
      out_report o
      = mkReport (pr_policy_objective p (parameters_data (policy Toy.self_no_search)))
                 s_zero false
      /\ named_parameters (policy (out_self o))
         = map (set_grad None) (named_parameters (policy Toy.self_no_search))
      /\ out_kl_evaluations o = [pr_first_evaluation p]
  | Raise _ => False
  end.
Proof.
  assert (Hok : raises (train_actor Toy.self_no_search Toy.batch) = false)
    by (vm_compute; reflexivity).
  assert (Hiter : (line_search_max_iter Toy.self_no_search <= 0)%Z) by discriminate.
  destruct (train_actor Toy.self_no_search Toy.batch) as [o|e] eqn:H;
    [|discriminate Hok].
  exact (no_iteration_reports_failure Toy.self_no_search Toy.batch o Hiter H).
Defined.

End FurtherEvaluation.
